(** * Navmesh visualiser: a shallow embedding of [mapoutvisualiser.py]

    The script reads a binary map file, follows its pointer chain
    (header, navmesh descriptor, vertex table, triangle info, triangle
    table) and hands the decoded vertices and triangles to a matplotlib
    plot.  The development below embeds the parsing and the plotting
    driver as Rocq functions and proves properties of them.

    - Python integers are [Z] (unbounded, as in Python).
    - Python floats are binary64: primitive [float]s.
    - [bytes] objects are [list byte].
    - Exceptions, [print] and the plotting calls are kept in a small
      monad [M]: a computation yields the events it emitted and either
      an exception or a value. *)

From Stdlib Require Import ZArith List String Lia.
From Stdlib Require Import PrimFloat Uint63 FloatOps SpecFloat.
From Stdlib.Strings Require Import Byte Ascii.
From stdpp Require Import base list gmap strings.

Local Open Scope Z_scope.

(** * Python values and effects *)

(** The values [struct.unpack_from] puts in its result tuple. *)
Inductive pyval :=
| PBytes (b : list byte)
| PInt (n : Z)
| PFloat (f : float).

(** The exception classes the script can meet.  All of them derive from
    [Exception]; [FileNotFoundError] derives from [OSError]. *)
Inductive exn :=
| FileNotFoundError
| OSError
| StructError
| IndexError
| TypeError
| ValueError.

(** ** Floats *)

(** [float(n)] for a Python int; exact below 2^53, which covers every
    integer the script converts (16-bit vertex components). *)
Definition float_of_int (z : Z) : float :=
  match z with
  | Z0 => PrimFloat.zero
  | Zpos _ => PrimFloat.of_uint63 (Uint63.of_Z z)
  | Zneg p => PrimFloat.opp (PrimFloat.of_uint63 (Uint63.of_Z (Zpos p)))
  end.

(** A binary32 bit pattern widened to binary64, as the [f] format code
    does: sign bit 31, exponent bits 23-30, fraction bits 0-22.  The
    widening is exact. *)
Definition f32_to_float (bits : Z) : float :=
  let s := Z.testbit bits 31 in
  let e := Z.land (Z.shiftr bits 23) 255 in
  let m := Z.land bits 8388607 in
  SF2Prim
    (if e =? 255 then (if m =? 0 then S754_infinity s else S754_nan)
     else if e =? 0 then
       match m with Zpos p => S754_finite s p (-149) | _ => S754_zero s end
     else
       match 8388608 + m with
       | Zpos p => S754_finite s p (e - 150)
       | _ => S754_zero s
       end).

(** * Data structures (source lines 21-45) *)

(** [class Vertex]: a 3D vertex. *)
Record Vertex := mkVertex { vx : float; vy : float; vz : float }.

(** [class Tri]: a navigation mesh triangle with its decoded bitfield. *)
Record Tri := mkTri {
  vertex_indices : list Z;
  neighbour_indices : list Z;
  data : Z;
  passable : Z;
  battle : Z;
  location : Z;
  soundType : Z
}.

(** [Tri.__init__]: stores the arguments and decodes the bitfield. *)
Definition Tri_init (v_indices n_indices : list Z) (data : Z) : Tri :=
  {| vertex_indices := v_indices;
     neighbour_indices := n_indices;
     data := data;
     passable := Z.land data 127;
     battle := Z.land (Z.shiftr data 7) 3;
     location := Z.land (Z.shiftr data 11) 3;
     soundType := Z.land (Z.shiftr data 15) 3 |}.

(** ** Events *)

(** What [print] writes, one constructor per [print] call of the
    script, with the values its f-string interpolates. *)
Inductive message :=
| MsgInvalidMagic (magic : pyval)
| MsgNavMeshBase (navmesh_base_addr : Z)
| MsgVertexCountScale (vertex_count : Z) (scale : float)
| MsgPointers (vertices_ptr tri_info_ptr : Z)
| MsgParsedVertices (n : nat)
| MsgTriangleCount (tri_count : Z)
| MsgParsedTriangles (n : nat)
| MsgFileNotFound (file_path : string)
| MsgStructError
| MsgCorrupted
| MsgUnexpected (e : exn)
| MsgNoData
| MsgSkipping (tri : Tri)
| MsgNoFileSelected
| MsgLoading (file_path : string)
| MsgFailedToParse.

Definition point : Type := float * float * float.

(** The observable effects: console output and the calls into
    matplotlib. *)
Inductive event :=
| Print (m : message)
| AddCollection3d (polygons : list (list point)) (colors : list string)
| SetLim (axis : string) (lo hi : float)
| Legend (entries : list (string * string))
| Title (t : string)
| Show.

(** ** The monad *)

Definition M (A : Type) : Type := list event * (exn + A).

Definition ret {A} (a : A) : M A := ([], inr a).
Definition raise {A} (e : exn) : M A := ([], inl e).
Definition emit (ev : event) : M unit := ([ev], inr tt).
Definition print (m : message) : M unit := emit (Print m).

Definition bind {A B} (m : M A) (k : A → M B) : M B :=
  match m with
  | (out, inl e) => (out, inl e)
  | (out, inr a) => let '(out', r) := k a in (out ++ out', r)
  end.

#[global] Instance M_ret : MRet M := @ret.
#[global] Instance M_bind : MBind M := λ A B k m, bind m k.

(** [try: body except ...: handler] *)
Definition try_except {A} (body : M A) (handler : exn → M A) : M A :=
  match body with
  | (out, inl e) => let '(out', r) := handler e in (out ++ out', r)
  | ok => ok
  end.

(** [for x in xs: s = body x s] *)
Fixpoint for_each {A S} (xs : list A) (body : A → S → M S) (s : S) : M S :=
  match xs with
  | [] => ret s
  | x :: xs' => s' ← body x s; for_each xs' body s'
  end.

(** [range(n)] *)
Definition range (n : Z) : list Z := seqZ 0 n.

(** [t[i]] on a tuple or list, with Python's negative indices. *)
Definition getitem {A} (t : list A) (i : Z) : M A :=
  let len := Z.of_nat (length t) in
  let j := if i <? 0 then i + len else i in
  if (j <? 0) || (len <=? j) then raise IndexError
  else match t !! Z.to_nat j with
       | Some x => ret x
       | None => raise IndexError
       end.

(** A tuple element used as an integer (in arithmetic, as an offset, in
    an [:X] format): other types make Python raise. *)
Definition as_int (v : pyval) : M Z :=
  match v with
  | PInt n => ret n
  | _ => raise TypeError
  end.

(** A tuple element used as the float factor of a product. *)
Definition as_float (v : pyval) : M float :=
  match v with
  | PFloat f => ret f
  | _ => raise TypeError
  end.

(** [t[a:b]] for [0 <= a <= b]. *)
Definition slice {A} (t : list A) (a b : nat) : list A := take (b - a) (drop a t).

(** [[f(x) for x in xs]] where [f] may raise. *)
Fixpoint comprehension {A B} (f : A → M B) (xs : list A) : M (list B) :=
  match xs with
  | [] => ret []
  | x :: xs' => y ← f x; ys ← comprehension f xs'; ret (y :: ys)
  end.

#[global] Instance byte_eq_dec : EqDecision byte := Byte.byte_eq_dec.

(** [v != b'...']: only a bytes object can equal a bytes literal. *)
Definition bytes_ne (v : pyval) (lit : list byte) : bool :=
  match v with
  | PBytes b => negb (bool_decide (b = lit))
  | _ => true
  end.

(** * The [struct] module, for the formats the script uses *)

Module struct.

(** Format codes: pad byte, bytes, signed and unsigned 16-bit,
    unsigned 32-bit, binary32 float. *)
Inductive code := c_x | c_s | c_h | c_H | c_I | c_f.

Definition code_of_ascii (c : ascii) : option code :=
  if Ascii.eqb c "x" then Some c_x
  else if Ascii.eqb c "s" then Some c_s
  else if Ascii.eqb c "h" then Some c_h
  else if Ascii.eqb c "H" then Some c_H
  else if Ascii.eqb c "I" then Some c_I
  else if Ascii.eqb c "f" then Some c_f
  else None.

Definition digit_of_ascii (c : ascii) : option nat :=
  let n := nat_of_ascii c in
  if (48 <=? n)%nat && (n <=? 57)%nat then Some (n - 48)%nat else None.

Definition is_space (c : ascii) : bool :=
  let n := nat_of_ascii c in
  (n =? 32)%nat || ((9 <=? n)%nat && (n <=? 13)%nat).

(** The items of a format after its byte-order character: white space
    between items is skipped, a decimal repeat count must be followed
    by its code. *)
Fixpoint parse_items (s : string) (count : option nat) : option (list (nat * code)) :=
  match s with
  | EmptyString =>
      match count with None => Some [] | Some _ => None end
  | String c rest =>
      match digit_of_ascii c with
      | Some d =>
          parse_items rest (Some (match count with None => d | Some n => 10 * n + d end)%nat)
      | None =>
          match count, is_space c with
          | None, true => parse_items rest None
          | _, _ =>
              match code_of_ascii c with
              | Some k =>
                  items ← parse_items rest None;
                  Some ((match count with None => 1%nat | Some n => n end, k) :: items)
              | None => None
              end
          end
      end
  end.

(** Only little-endian standard-size formats (leading [<]) are
    modelled: no alignment, fixed sizes. *)
Definition parse_format (fmt : string) : option (list (nat * code)) :=
  match fmt with
  | String "<" rest => parse_items rest None
  | _ => None
  end.

Definition code_size (k : code) : nat :=
  match k with
  | c_x | c_s => 1
  | c_h | c_H => 2
  | c_I | c_f => 4
  end.

Definition items_size (items : list (nat * code)) : nat :=
  foldr (λ it acc, (it.1 * code_size it.2 + acc)%nat) 0%nat items.

Definition byte_Z (b : byte) : Z := Z.of_N (Byte.to_N b).

(** Little-endian unsigned value of a byte string. *)
Definition le_uint (bs : list byte) : Z :=
  foldr (λ b acc, byte_Z b + 256 * acc) 0 bs.

(** Two's complement reading of the same bytes. *)
Definition le_sint (bs : list byte) : Z :=
  let u := le_uint bs in
  if u <? 2 ^ (8 * Z.of_nat (length bs) - 1) then u
  else u - 2 ^ (8 * Z.of_nat (length bs)).

(** One value of a numeric code from the front of [bs]. *)
Definition unpack_one (k : code) (bs : list byte) : pyval :=
  let field := take (code_size k) bs in
  match k with
  | c_h => PInt (le_sint field)
  | c_H | c_I => PInt (le_uint field)
  | c_f => PFloat (f32_to_float (le_uint field))
  | c_x | c_s => PBytes field
  end.

Fixpoint unpack_rep (n : nat) (k : code) (bs : list byte) : list pyval :=
  match n with
  | O => []
  | S n' => unpack_one k bs :: unpack_rep n' k (drop (code_size k) bs)
  end.

(** The values of the items, read from the front of [bs]: [x] yields
    nothing, [ns] yields one bytes object of length [n], the numeric
    codes yield [n] values. *)
Fixpoint unpack_items (items : list (nat * code)) (bs : list byte) : list pyval :=
  match items with
  | [] => []
  | (n, k) :: items' =>
      let rest := unpack_items items' (drop (n * code_size k) bs) in
      match k with
      | c_x => rest
      | c_s => PBytes (take n bs) :: rest
      | _ => unpack_rep n k bs ++ rest
      end
  end.

(** [struct.calcsize(fmt)] *)
Definition calcsize (fmt : string) : M Z :=
  match parse_format fmt with
  | None => raise StructError
  | Some items => ret (Z.of_nat (items_size items))
  end.

(** [struct.unpack_from(fmt, buffer, offset)]: a negative offset
    counts from the end; the whole struct must lie inside the
    buffer, otherwise [struct.error]. *)
Definition unpack_from (fmt : string) (buffer : list byte) (offset : Z) : M (list pyval) :=
  match parse_format fmt with
  | None => raise StructError
  | Some items =>
      let size := Z.of_nat (items_size items) in
      let len := Z.of_nat (length buffer) in
      if (offset <? 0) && ((0 <? offset + size) || (offset + len <? 0))
      then raise StructError
      else
        let offset := if offset <? 0 then offset + len else offset in
        if len - offset <? size then raise StructError
        else ret (unpack_items items (drop (Z.to_nat offset) buffer))
  end.

End struct.

(** * Colour mapping (source lines 47-63) *)

(** [{i: 'purple' for i in range(48, 64)}] *)
Definition script_colors : gmap Z string :=
  list_to_map ((λ i, (i, "purple"%string)) <$> seqZ 48 16).

(** The dict display: the four literal entries are inserted first, the
    unpacked comprehension updates the result. *)
Definition PASSABILITY_COLORS : gmap Z string :=
  script_colors ∪
  <[14 := "yellow"%string]> (<[2 := "orange"%string]>
    (<[1 := "red"%string]> (<[0 := "green"%string]> ∅))).

Definition DEFAULT_COLOR : string := "gray".

(** [PASSABILITY_COLORS.get(pass_val, DEFAULT_COLOR)] *)
Definition get_passability_color (pass_val : Z) : string :=
  default DEFAULT_COLOR (PASSABILITY_COLORS !! pass_val).

(** The legend of the plot (source lines 217-219): label and colour. *)
Definition legend_entries : list (string * string) :=
  [("Passable", "green"); ("Blocked", "red"); ("Block NPC", "orange");
   ("Block Player", "yellow"); ("Scripted", "purple"); ("Other", "gray")]%string.

(** The label the legend shows for a colour. *)
Definition legend_label (color : string) : option string :=
  fst <$> find (λ e, String.eqb (snd e) color) legend_entries.

(** The table of source lines 51-59, written as a decision. *)
Definition color_table (v : Z) : string :=
  if v =? 0 then "green"
  else if v =? 1 then "red"
  else if v =? 2 then "orange"
  else if v =? 14 then "yellow"
  else if (48 <=? v) && (v <=? 63) then "purple"
  else "gray".

Definition label_table (v : Z) : string :=
  if v =? 0 then "Passable"
  else if v =? 1 then "Blocked"
  else if v =? 2 then "Block NPC"
  else if v =? 14 then "Block Player"
  else if (48 <=? v) && (v <=? 63) then "Scripted"
  else "Other".

(** * File parsing (source lines 67-159) *)

(** What [open(file_path, 'rb')] followed by [f.read()] can do. *)
Inductive open_result :=
| NoSuchFile
| OpenFails
| Contents (content : list byte).

Definition filesystem : Type := string → open_result.

(** The pair [parse_map_file] returns; [None] is Python's [None]. *)
Definition mesh : Type := option (list Vertex) * option (list Tri).

Definition MAP1 : list byte := [x4d; x41; x50; x31].

Definition header_format : string := "<4s 12x I I I 7I I".
Definition navmesh_format : string := "<10x H f 8x I I".
Definition vertex_format : string := "<hhh2x".
Definition tri_info_format : string := "<8x I I".
Definition tri_format : string := "<3H 3h I".

(** Source lines 113-117: one pass of the vertex loop. *)
Definition read_vertex (content : list byte) (vertices_abs_addr vertex_size : Z)
    (scale : float) (i : Z) (vertices : list Vertex) : M (list Vertex) :=
  let offset := vertices_abs_addr + i * vertex_size in
  v_data ← struct.unpack_from vertex_format content offset;
  x ← getitem v_data 0 ≫= as_int;
  y ← getitem v_data 1 ≫= as_int;
  z ← getitem v_data 2 ≫= as_int;
  mret (vertices ++ [mkVertex (PrimFloat.mul (float_of_int x) scale)
                              (PrimFloat.mul (float_of_int y) scale)
                              (PrimFloat.mul (float_of_int z) scale)]).

(** Source lines 138-144: one pass of the triangle loop. *)
Definition read_tri (content : list byte) (tris_abs_addr tri_size : Z)
    (i : Z) (tris : list Tri) : M (list Tri) :=
  let offset := tris_abs_addr + i * tri_size in
  t_data ← struct.unpack_from tri_format content offset;
  vertex_indices ← comprehension as_int (slice t_data 0 3);
  neighbour_indices ← comprehension as_int (slice t_data 3 6);
  tri_data_bitfield ← getitem t_data 6 ≫= as_int;
  mret (tris ++ [Tri_init vertex_indices neighbour_indices tri_data_bitfield]).

(** The body of the [with] block, source lines 73-148. *)
Definition parse_content (content : list byte) : M mesh :=
  header_size ← struct.calcsize header_format;
  header_data ← struct.unpack_from header_format content 0;
  magic ← getitem header_data 0;
  if bytes_ne magic MAP1 then
    print (MsgInvalidMagic magic);;
    mret (None, None)
  else
    navmesh_base_addr ← getitem header_data 3 ≫= as_int;
    print (MsgNavMeshBase navmesh_base_addr);;
    navmesh_data ← struct.unpack_from navmesh_format content navmesh_base_addr;
    vertex_count ← getitem navmesh_data 0 ≫= as_int;
    scale ← getitem navmesh_data 1 ≫= as_float;
    vertices_ptr ← getitem navmesh_data 2 ≫= as_int;
    tri_info_ptr ← getitem navmesh_data 3 ≫= as_int;
    print (MsgVertexCountScale vertex_count scale);;
    print (MsgPointers vertices_ptr tri_info_ptr);;
    vertex_size ← struct.calcsize vertex_format;
    let vertices_abs_addr := navmesh_base_addr + vertices_ptr in
    vertices ← for_each (range vertex_count)
                 (read_vertex content vertices_abs_addr vertex_size scale) [];
    print (MsgParsedVertices (length vertices));;
    let tri_info_abs_addr := navmesh_base_addr + tri_info_ptr in
    tri_info_data ← struct.unpack_from tri_info_format content tri_info_abs_addr;
    tri_count ← getitem tri_info_data 0 ≫= as_int;
    tris_ptr ← getitem tri_info_data 1 ≫= as_int;
    let tris_abs_addr := navmesh_base_addr + tris_ptr in
    print (MsgTriangleCount tri_count);;
    tri_size ← struct.calcsize tri_format;
    tris ← for_each (range tri_count) (read_tri content tris_abs_addr tri_size) [];
    print (MsgParsedTriangles (length tris));;
    mret (Some vertices, Some tris).

(** The three [except] clauses, in source order. *)
Definition parse_handler (file_path : string) (e : exn) : M mesh :=
  match e with
  | FileNotFoundError =>
      print (MsgFileNotFound file_path);;
      mret (None, None)
  | StructError =>
      print MsgStructError;;
      print MsgCorrupted;;
      mret (None, None)
  | _ =>
      print (MsgUnexpected e);;
      mret (None, None)
  end.

Definition parse_map_file (fs : filesystem) (file_path : string) : M mesh :=
  try_except
    (match fs file_path with
     | NoSuchFile => raise FileNotFoundError
     | OpenFails => raise OSError
     | Contents content => parse_content content
     end)
    (parse_handler file_path).

(** * Visualisation (source lines 164-227) *)

(** Truth value of a returned list: [None] and the empty list are false. *)
Definition truthy {A} (l : option (list A)) : bool :=
  match l with
  | Some (_ :: _) => true
  | _ => false
  end.

(** [max(xs)] and [min(xs)] on a list of floats: the first element is
    kept until a strictly greater (smaller) one is met. *)
Definition py_max (xs : list float) : M float :=
  match xs with
  | [] => raise ValueError
  | x :: xs' => ret (foldl (λ m y, if PrimFloat.ltb m y then y else m) x xs')
  end.

Definition py_min (xs : list float) : M float :=
  match xs with
  | [] => raise ValueError
  | x :: xs' => ret (foldl (λ m y, if PrimFloat.ltb y m then y else m) x xs')
  end.

(** [np.array([a, b, c]).max()]: the maximum, a NaN if there is one. *)
Definition np_max3 (a b c : float) : float :=
  let mx (m y : float) :=
    if PrimFloat.is_nan m then m else if PrimFloat.ltb y m then m else y in
  mx (mx a b) c.

(** Source lines 178-192: one pass of the triangle loop. *)
Definition add_polygon (vertices : list Vertex) (tri : Tri)
    (acc : list (list point) * list string) : M (list (list point) * list string) :=
  let '(polygons, colors) := acc in
  points ← comprehension (getitem vertices) (vertex_indices tri);
  if existsb (λ i, Z.of_nat (length vertices) <=? i) (vertex_indices tri) then
    print (MsgSkipping tri);;
    mret (polygons, colors)
  else
    let polygon := (λ p, (vx p, vy p, vz p)) <$> points in
    mret (polygons ++ [polygon], colors ++ [get_passability_color (passable tri)]).

(** Source lines 206-214: the cube around the vertices. *)
Definition set_limits (all_x all_y all_z : list float) : M unit :=
  max_x ← py_max all_x; min_x ← py_min all_x;
  max_y ← py_max all_y; min_y ← py_min all_y;
  max_z ← py_max all_z; min_z ← py_min all_z;
  let max_range :=
    PrimFloat.div
      (np_max3 (PrimFloat.sub max_x min_x) (PrimFloat.sub max_y min_y)
               (PrimFloat.sub max_z min_z))
      2%float in
  let mid_x := PrimFloat.mul (PrimFloat.add max_x min_x) 0.5%float in
  let mid_y := PrimFloat.mul (PrimFloat.add max_y min_y) 0.5%float in
  let mid_z := PrimFloat.mul (PrimFloat.add max_z min_z) 0.5%float in
  emit (SetLim "x" (PrimFloat.sub mid_x max_range) (PrimFloat.add mid_x max_range));;
  emit (SetLim "y" (PrimFloat.sub mid_y max_range) (PrimFloat.add mid_y max_range));;
  emit (SetLim "z" (PrimFloat.sub mid_z max_range) (PrimFloat.add mid_z max_range)).

(** [visualize_navmesh(vertices, tris, filename)].  The calls that only
    decorate the figure are recorded as events; [Title] carries the file
    name whose base name the title shows. *)
Definition visualize_navmesh (vertices : option (list Vertex))
    (tris : option (list Tri)) (filename : string) : M unit :=
  if negb (truthy vertices) || negb (truthy tris) then
    print MsgNoData
  else
    let vertices := default [] vertices in
    let tris := default [] tris in
    '(polygons, colors) ← for_each tris (add_polygon vertices) ([], []);
    emit (AddCollection3d polygons colors);;
    let all_x := vx <$> vertices in
    let all_y := vy <$> vertices in
    let all_z := vz <$> vertices in
    match all_x with
    | [] => mret tt
    | _ =>
        set_limits all_x all_y all_z;;
        emit (Legend legend_entries);;
        emit (Title filename);;
        emit Show
    end.

(** * Main (source lines 232-255) *)

(** [main()], given the path the file dialog returns (empty when the
    dialog is cancelled) and the files on disk. *)
Definition main (fs : filesystem) (file_path : string) : M unit :=
  if String.eqb file_path "" then
    print MsgNoFileSelected
  else
    print (MsgLoading file_path);;
    '(vertices, tris) ← parse_map_file fs file_path;
    if truthy vertices && truthy tris then
      visualize_navmesh vertices tris file_path
    else
      print MsgFailedToParse.

(** * Reading fields at absolute offsets *)

Definition buflen (content : list byte) : Z := Z.of_nat (length content).

Definition bytes_at (content : list byte) (off : Z) (n : nat) : list byte :=
  take n (drop (Z.to_nat off) content).

Definition u16_at (content : list byte) (off : Z) : Z :=
  struct.le_uint (bytes_at content off 2).
Definition i16_at (content : list byte) (off : Z) : Z :=
  struct.le_sint (bytes_at content off 2).
Definition u32_at (content : list byte) (off : Z) : Z :=
  struct.le_uint (bytes_at content off 4).
Definition f32_at (content : list byte) (off : Z) : float :=
  f32_to_float (u32_at content off).

(** The vertex record stored at [off], scaled. *)
Definition vertex_at (content : list byte) (scale : float) (off : Z) : Vertex :=
  mkVertex (PrimFloat.mul (float_of_int (i16_at content off)) scale)
           (PrimFloat.mul (float_of_int (i16_at content (off + 2))) scale)
           (PrimFloat.mul (float_of_int (i16_at content (off + 4))) scale).

(** The triangle record stored at [off]. *)
Definition tri_at (content : list byte) (off : Z) : Tri :=
  Tri_init [u16_at content off; u16_at content (off + 2); u16_at content (off + 4)]
           [i16_at content (off + 6); i16_at content (off + 8); i16_at content (off + 10)]
           (u32_at content (off + 12)).

(** * The pipeline with its tuples resolved

    [decode] is the same chain of reads written over the typed field
    readers, with the bounds test of each [unpack_from] made explicit.
    It returns what was printed and how the decoding ended. *)

Inductive outcome :=
| BadMagic (magic : list byte)
| OutOfBounds
| Decoded (vertices : list Vertex) (tris : list Tri).

Definition decode (content : list byte) : list event * outcome :=
  let len := buflen content in
  if len <? 60 then ([], OutOfBounds) else
  let magic := take 4 content in
  if negb (bool_decide (magic = MAP1)) then
    ([Print (MsgInvalidMagic (PBytes magic))], BadMagic magic)
  else
  let base := u32_at content 24 in
  let out1 := [Print (MsgNavMeshBase base)] in
  if len - base <? 32 then (out1, OutOfBounds) else
  let vertex_count := u16_at content (base + 10) in
  let scale := f32_at content (base + 12) in
  let vertices_ptr := u32_at content (base + 24) in
  let tri_info_ptr := u32_at content (base + 28) in
  let out2 := out1 ++ [Print (MsgVertexCountScale vertex_count scale);
                       Print (MsgPointers vertices_ptr tri_info_ptr)] in
  let vertices_abs_addr := base + vertices_ptr in
  if (0 <? vertex_count) && (len <? vertices_abs_addr + 8 * vertex_count)
  then (out2, OutOfBounds) else
  let vertices :=
    (λ i, vertex_at content scale (vertices_abs_addr + i * 8)) <$> range vertex_count in
  let out3 := out2 ++ [Print (MsgParsedVertices (length vertices))] in
  let tri_info_abs_addr := base + tri_info_ptr in
  if len - tri_info_abs_addr <? 16 then (out3, OutOfBounds) else
  let tri_count := u32_at content (tri_info_abs_addr + 8) in
  let tris_ptr := u32_at content (tri_info_abs_addr + 12) in
  let out4 := out3 ++ [Print (MsgTriangleCount tri_count)] in
  let tris_abs_addr := base + tris_ptr in
  if (0 <? tri_count) && (len <? tris_abs_addr + 16 * tri_count)
  then (out4, OutOfBounds) else
  let tris := (λ i, tri_at content (tris_abs_addr + i * 16)) <$> range tri_count in
  (out4 ++ [Print (MsgParsedTriangles (length tris))], Decoded vertices tris).

(** How [parse_content] ends for each outcome. *)
Definition outcome_result (o : outcome) : exn + mesh :=
  match o with
  | BadMagic _ => inr (None, None)
  | OutOfBounds => inl StructError
  | Decoded vertices tris => inr (Some vertices, Some tris)
  end.

(** Source lines 111, 124 and 129: a stored pointer counts from the
    navmesh descriptor. *)
Definition abs_addr (navmesh_base_addr ptr : Z) : Z := navmesh_base_addr + ptr.

(** A read of the chain that does not fit in the buffer: the header,
    or (the tag being right) the descriptor, or (the descriptor being
    read) a vertex record or the TriInfo record, or (TriInfo being read)
    a triangle record. *)
Inductive read_exceeds (content : list byte) : Prop :=
| exceeds_header :
    buflen content < 60 → read_exceeds content
| exceeds_navmesh :
    60 ≤ buflen content → take 4 content = MAP1 →
    buflen content < u32_at content 24 + 32 →
    read_exceeds content
| exceeds_vertex (i : Z) :
    let base := u32_at content 24 in
    60 ≤ buflen content → take 4 content = MAP1 →
    base + 32 ≤ buflen content →
    0 ≤ i < u16_at content (base + 10) →
    buflen content < abs_addr base (u32_at content (base + 24)) + i * 8 + 8 →
    read_exceeds content
| exceeds_tri_info :
    let base := u32_at content 24 in
    60 ≤ buflen content → take 4 content = MAP1 →
    base + 32 ≤ buflen content →
    buflen content < abs_addr base (u32_at content (base + 28)) + 16 →
    read_exceeds content
| exceeds_tri (i : Z) :
    let base := u32_at content 24 in
    let tri_info := abs_addr base (u32_at content (base + 28)) in
    60 ≤ buflen content → take 4 content = MAP1 →
    base + 32 ≤ buflen content →
    tri_info + 16 ≤ buflen content →
    0 ≤ i < u32_at content (tri_info + 8) →
    buflen content < abs_addr base (u32_at content (tri_info + 12)) + i * 16 + 16 →
    read_exceeds content.

(** Binary enumeration of the [n]-bit numbers. *)
Fixpoint forall_bits (n : nat) (P : Z → bool) : bool :=
  match n with
  | O => P 0
  | S n' => forall_bits n' (λ z, P (2 * z)) && forall_bits n' (λ z, P (2 * z + 1))
  end.

(** A product with either zero compares equal to [0.0]. *)
Definition zero_product (raw : Z) : bool :=
  PrimFloat.is_zero (PrimFloat.mul (float_of_int raw) PrimFloat.zero)
  && PrimFloat.is_zero (PrimFloat.mul (float_of_int raw) PrimFloat.neg_zero).

(** * The plot without its exceptions *)

(** What [t[i]] denotes: the element counted from the end when [i] is
    negative, nothing when [i] is outside [-len, len). *)
Definition py_lookup {A} (t : list A) (i : Z) : option A :=
  let len := Z.of_nat (length t) in
  if (i <? - len) || (len <=? i) then None
  else t !! Z.to_nat (if i <? 0 then i + len else i).

Definition coords (p : Vertex) : point := (vx p, vy p, vz p).

(** The polygon of a triangle whose indices all denote a vertex. *)
Definition polygon_of (vertices : list Vertex) (tri : Tri) : option (list point) :=
  fmap coords <$> mapM (py_lookup vertices) (vertex_indices tri).

#[global] Instance Vertex_inhabited : Inhabited Vertex :=
  populate (mkVertex PrimFloat.zero PrimFloat.zero PrimFloat.zero).

(** * The part of the file the parser looks at *)

(** One past the last byte a successful parse reads: the end of the
    header, of the descriptor, of the vertex table, of the TriInfo
    record and of the triangle table, whichever is largest. *)
Definition extent (content : list byte) : Z :=
  let base := u32_at content 24 in
  let vertex_count := u16_at content (base + 10) in
  let vertices_end := base + u32_at content (base + 24) + 8 * vertex_count in
  let tri_info := base + u32_at content (base + 28) in
  let tri_count := u32_at content (tri_info + 8) in
  let tris_end := base + u32_at content (tri_info + 12) + 16 * tri_count in
  Z.max 60
    (Z.max (base + 32)
       (Z.max (if 0 <? vertex_count then vertices_end else 0)
          (Z.max (tri_info + 16)
             (if 0 <? tri_count then tris_end else 0)))).

(** * Test buffers *)

Definition byte_of_Z (z : Z) : byte :=
  default x00 (Byte.of_N (Z.to_N (z mod 256))).

(** [w] bytes of [z], least significant first. *)
Fixpoint le_bytes (w : nat) (z : Z) : list byte :=
  match w with
  | O => []
  | S w' => byte_of_Z z :: le_bytes w' (z / 256)
  end.

Definition pad (n : nat) : list byte := replicate n x00.

(** A file with the descriptor at [base], [count] copies of the vertex
    (100, -100, 0), scale 0.01 and the given triangles
    (indices, neighbours, attribute word). *)
Definition sample_header (magic : list byte) (base : Z) : list byte :=
  magic ++ pad 12 ++ le_bytes 4 7 ++ le_bytes 4 9 ++ le_bytes 4 base
        ++ pad 28 ++ le_bytes 4 0.

Definition sample_tri (t : list Z * list Z * Z) : list byte :=
  let '(vs, ns, d) := t in
  concat (le_bytes 2 <$> vs) ++ concat (le_bytes 2 <$> ns) ++ le_bytes 4 d.

Definition sample_file (count : Z) (scale_bits : Z) (tris : list (list Z * list Z * Z)) : list byte :=
  let nv := Z.to_nat count in
  sample_header MAP1 60
  ++ pad 10 ++ le_bytes 2 count ++ le_bytes 4 scale_bits ++ pad 8
  ++ le_bytes 4 32 ++ le_bytes 4 (32 + 8 * count)
  ++ concat (replicate nv (le_bytes 2 100 ++ le_bytes 2 (-100) ++ le_bytes 2 0 ++ pad 2))
  ++ pad 8 ++ le_bytes 4 (Z.of_nat (length tris)) ++ le_bytes 4 (48 + 8 * count)
  ++ concat (sample_tri <$> tris).

Definition sample1 : list byte :=
  sample_file 3 0x3C23D70A [([0; 1; 2], [-1; -1; -1], 0)].

(** * Monad and [struct] lemmas *)

Lemma bind_ret {A B} (a : A) (k : A → M B) : (mret a ≫= k) = k a.
Proof. unfold mbind, M_bind, mret, M_ret, bind, ret. by destruct (k a). Qed.

Lemma bind_raise {A B} (e : exn) (k : A → M B) : (raise e ≫= k) = raise e.
Proof. reflexivity. Qed.

Lemma bind_ret' {A B} (a : A) (k : A → M B) : (ret a ≫= k) = k a.
Proof. apply bind_ret. Qed.

Lemma le_uint_nonneg bs : 0 ≤ struct.le_uint bs.
Proof.
  induction bs as [|b bs IH]; simpl; [lia|].
  unfold struct.byte_Z. lia.
Qed.

Lemma drop_at (content : list byte) (off : Z) (k : nat) :
  0 ≤ off → drop k (drop (Z.to_nat off) content) = drop (Z.to_nat (off + Z.of_nat k)) content.
Proof. intros H. rewrite drop_drop. f_equal. lia. Qed.

Lemma unpack_from_nonneg fmt items buffer offset :
  struct.parse_format fmt = Some items → 0 ≤ offset →
  struct.unpack_from fmt buffer offset =
    if buflen buffer - offset <? Z.of_nat (struct.items_size items) then raise StructError
    else ret (struct.unpack_items items (drop (Z.to_nat offset) buffer)).
Proof.
  intros Hf Hoff. unfold struct.unpack_from. rewrite Hf.
  destruct (offset <? 0) eqn:E; [lia|]. reflexivity.
Qed.

Import struct.

Lemma parse_header_format :
  parse_format header_format =
    Some [(4, c_s); (12, c_x); (1, c_I); (1, c_I); (1, c_I); (7, c_I); (1, c_I)]%nat.
Proof. reflexivity. Qed.

Lemma parse_navmesh_format :
  parse_format navmesh_format =
    Some [(10, c_x); (1, c_H); (1, c_f); (8, c_x); (1, c_I); (1, c_I)]%nat.
Proof. reflexivity. Qed.

Lemma parse_vertex_format :
  parse_format vertex_format = Some [(1, c_h); (1, c_h); (1, c_h); (2, c_x)]%nat.
Proof. reflexivity. Qed.

Lemma parse_tri_info_format :
  parse_format tri_info_format = Some [(8, c_x); (1, c_I); (1, c_I)]%nat.
Proof. reflexivity. Qed.

Lemma parse_tri_format :
  parse_format tri_format = Some [(3, c_H); (3, c_h); (1, c_I)]%nat.
Proof. reflexivity. Qed.

Lemma unpack_header content :
  unpack_from header_format content 0 =
    if buflen content <? 60 then raise StructError
    else ret [PBytes (take 4 content); PInt (u32_at content 16);
              PInt (u32_at content 20); PInt (u32_at content 24);
              PInt (u32_at content 28); PInt (u32_at content 32);
              PInt (u32_at content 36); PInt (u32_at content 40);
              PInt (u32_at content 44); PInt (u32_at content 48);
              PInt (u32_at content 52); PInt (u32_at content 56)].
Proof.
  rewrite (unpack_from_nonneg _ _ _ _ parse_header_format) by lia.
  rewrite Z.sub_0_r. change (Z.of_nat _) with 60.
  destruct (buflen content <? 60); [done|].
  f_equal. simpl. rewrite ?drop_drop. reflexivity.
Qed.

Ltac unpack_fields :=
  unfold f32_at; unfold u16_at, i16_at, u32_at, bytes_at;
  simpl; rewrite ?drop_drop; simpl;
  repeat (f_equal; try lia).

Lemma unpack_navmesh content base :
  0 ≤ base →
  unpack_from navmesh_format content base =
    if buflen content - base <? 32 then raise StructError
    else ret [PInt (u16_at content (base + 10)); PFloat (f32_at content (base + 12));
              PInt (u32_at content (base + 24)); PInt (u32_at content (base + 28))].
Proof.
  intros Hb. rewrite (unpack_from_nonneg _ _ _ _ parse_navmesh_format) by lia.
  change (Z.of_nat _) with 32.
  destruct (_ <? 32); [done|]. f_equal. unpack_fields.
Qed.

Lemma unpack_vertex content off :
  0 ≤ off →
  unpack_from vertex_format content off =
    if buflen content - off <? 8 then raise StructError
    else ret [PInt (i16_at content off); PInt (i16_at content (off + 2));
              PInt (i16_at content (off + 4))].
Proof.
  intros Hb. rewrite (unpack_from_nonneg _ _ _ _ parse_vertex_format) by lia.
  change (Z.of_nat _) with 8.
  destruct (_ <? 8); [done|]. f_equal. unpack_fields.
Qed.

Lemma unpack_tri_info content off :
  0 ≤ off →
  unpack_from tri_info_format content off =
    if buflen content - off <? 16 then raise StructError
    else ret [PInt (u32_at content (off + 8)); PInt (u32_at content (off + 12))].
Proof.
  intros Hb. rewrite (unpack_from_nonneg _ _ _ _ parse_tri_info_format) by lia.
  change (Z.of_nat _) with 16.
  destruct (_ <? 16); [done|]. f_equal. unpack_fields.
Qed.

Lemma unpack_tri content off :
  0 ≤ off →
  unpack_from tri_format content off =
    if buflen content - off <? 16 then raise StructError
    else ret [PInt (u16_at content off); PInt (u16_at content (off + 2));
              PInt (u16_at content (off + 4)); PInt (i16_at content (off + 6));
              PInt (i16_at content (off + 8)); PInt (i16_at content (off + 10));
              PInt (u32_at content (off + 12))].
Proof.
  intros Hb. rewrite (unpack_from_nonneg _ _ _ _ parse_tri_format) by lia.
  change (Z.of_nat _) with 16.
  destruct (_ <? 16); [done|]. f_equal. unpack_fields.
Qed.

#[global] Arguments u16_at : simpl never.
#[global] Arguments i16_at : simpl never.
#[global] Arguments u32_at : simpl never.
#[global] Arguments f32_at : simpl never.
#[global] Arguments vertex_at : simpl never.
#[global] Arguments tri_at : simpl never.
#[global] Arguments unpack_from : simpl never.

Lemma bind_print {B} (m : message) (k : unit → M B) :
  (print m ≫= k) = (Print m :: (k tt).1, (k tt).2).
Proof. unfold mbind, M_bind, bind, print, emit. by destruct (k tt). Qed.

Lemma getitem_lookup {A} (t : list A) (i : nat) (x : A) :
  t !! i = Some x → getitem t (Z.of_nat i) = ret x.
Proof.
  intros H. unfold getitem.
  pose proof (lookup_lt_Some _ _ _ H) as Hlt.
  destruct (Z.of_nat i <? 0) eqn:E1; [lia|].
  destruct (Z.of_nat _ <=? Z.of_nat i) eqn:E2; [lia|].
  simpl. by rewrite E1, Nat2Z.id, H.
Qed.

(** ** Loops that append one decoded record per index *)

Lemma for_each_append {A B} (xs : list A) (body : A → list B → M (list B))
    (bad : A → bool) (f : A → B) (e : exn) :
  (∀ x s, x ∈ xs → body x s = if bad x then raise e else ret (s ++ [f x])) →
  ∀ s, for_each xs body s =
       if existsb bad xs then raise e else ret (s ++ (f <$> xs)).
Proof.
  induction xs as [|x xs IH]; intros Hbody s; cbn [for_each existsb fmap list_fmap].
  - by rewrite app_nil_r.
  - rewrite Hbody by left. destruct (bad x); [done|].
    rewrite bind_ret', IH by (intros; apply Hbody; by right).
    cbn [orb]. destruct (existsb bad xs); [done|]. by rewrite <- app_assoc.
Qed.

Lemma existsb_range_overrun (len addr size n : Z) :
  0 < size →
  existsb (λ i, len - (addr + i * size) <? size) (range n) =
    (0 <? n) && (len <? addr + size * n).
Proof.
  intros Hs. apply eq_true_iff_eq.
  rewrite existsb_exists, andb_true_iff, !Z.ltb_lt. unfold range. split.
  - intros (i & Hi & Hlt). apply list_elem_of_In, elem_of_seqZ in Hi.
    apply Z.ltb_lt in Hlt. nia.
  - intros [Hn Hlt]. exists (n - 1). split.
    + apply list_elem_of_In, elem_of_seqZ. lia.
    + apply Z.ltb_lt. nia.
Qed.

Lemma read_vertex_eq content addr scale i vs :
  0 ≤ addr + i * 8 →
  read_vertex content addr 8 scale i vs =
    if buflen content - (addr + i * 8) <? 8 then raise StructError
    else ret (vs ++ [vertex_at content scale (addr + i * 8)]).
Proof.
  intros H. unfold read_vertex. rewrite unpack_vertex by done.
  destruct (_ <? 8); [done|]. reflexivity.
Qed.

Lemma read_tri_eq content addr i ts :
  0 ≤ addr + i * 16 →
  read_tri content addr 16 i ts =
    if buflen content - (addr + i * 16) <? 16 then raise StructError
    else ret (ts ++ [tri_at content (addr + i * 16)]).
Proof.
  intros H. unfold read_tri. rewrite unpack_tri by done.
  destruct (_ <? 16); [done|]. reflexivity.
Qed.

Lemma vertex_loop content addr scale n :
  0 ≤ addr →
  for_each (range n) (read_vertex content addr 8 scale) [] =
    if (0 <? n) && (buflen content <? addr + 8 * n) then raise StructError
    else ret ((λ i, vertex_at content scale (addr + i * 8)) <$> range n).
Proof.
  intros Ha. rewrite <- existsb_range_overrun by lia.
  rewrite (for_each_append (range n) _ (λ i, buflen content - (addr + i * 8) <? 8)
             (λ i, vertex_at content scale (addr + i * 8)) StructError); [done|].
  intros i s Hi. apply elem_of_seqZ in Hi. apply read_vertex_eq. lia.
Qed.

Lemma tri_loop content addr n :
  0 ≤ addr →
  for_each (range n) (read_tri content addr 16) [] =
    if (0 <? n) && (buflen content <? addr + 16 * n) then raise StructError
    else ret ((λ i, tri_at content (addr + i * 16)) <$> range n).
Proof.
  intros Ha. rewrite <- existsb_range_overrun by lia.
  rewrite (for_each_append (range n) _ (λ i, buflen content - (addr + i * 16) <? 16)
             (λ i, tri_at content (addr + i * 16)) StructError); [done|].
  intros i s Hi. apply elem_of_seqZ in Hi. apply read_tri_eq. lia.
Qed.

(** ** The monadic parser computes [decode] *)

Lemma item_int (t : list pyval) (i n : Z) :
  0 ≤ i → t !! Z.to_nat i = Some (PInt n) → (getitem t i ≫= as_int) = ret n.
Proof.
  intros Hi H. rewrite <- (Z2Nat.id i) at 1 by done.
  by rewrite (getitem_lookup _ _ _ H), bind_ret'.
Qed.

Lemma item_float (t : list pyval) (i : Z) (f : float) :
  0 ≤ i → t !! Z.to_nat i = Some (PFloat f) → (getitem t i ≫= as_float) = ret f.
Proof.
  intros Hi H. rewrite <- (Z2Nat.id i) at 1 by done.
  by rewrite (getitem_lookup _ _ _ H), bind_ret'.
Qed.

Ltac steps :=
  repeat first
    [ rewrite bind_ret'
    | erewrite item_int by (done || lia)
    | erewrite item_float by (done || lia)
    | rewrite bind_print; cbv beta; cbn [fst snd] ].

Lemma parse_content_decode content :
  parse_content content = ((decode content).1, outcome_result (decode content).2).
Proof.
  unfold parse_content, decode.
  change (calcsize header_format) with (@ret Z 60).
  change (calcsize vertex_format) with (@ret Z 8).
  change (calcsize tri_format) with (@ret Z 16).
  rewrite bind_ret', unpack_header.
  destruct (buflen content <? 60); [done|].
  rewrite bind_ret'.
  rewrite (getitem_lookup _ 0 (PBytes (take 4 content))) by done.
  rewrite bind_ret'. cbn [bytes_ne].
  destruct (negb (bool_decide (take 4 content = MAP1))); [done|].
  steps.
  pose proof (le_uint_nonneg (bytes_at content 24 4)) as Hbase.
  fold (u32_at content 24) in Hbase.
  set (base := u32_at content 24) in *.
  rewrite unpack_navmesh by done.
  destruct (buflen content - base <? 32); [done|].
  steps.
  pose proof (le_uint_nonneg (bytes_at content (base + 24) 4)) as Hvp.
  fold (u32_at content (base + 24)) in Hvp.
  rewrite vertex_loop by lia.
  destruct (_ && _); [done|].
  steps.
  pose proof (le_uint_nonneg (bytes_at content (base + 28) 4)) as Htp.
  fold (u32_at content (base + 28)) in Htp.
  rewrite unpack_tri_info by lia.
  destruct (_ <? 16); [done|].
  steps.
  set (tia := base + u32_at content (base + 28)) in *.
  pose proof (le_uint_nonneg (bytes_at content (tia + 12) 4)) as Htr.
  fold (u32_at content (tia + 12)) in Htr.
  rewrite tri_loop by lia.
  destruct (_ && _); [done|].
  steps. reflexivity.
Qed.

Lemma parse_ok_decode content out vs ts :
  parse_content content = (out, inr (Some vs, Some ts)) →
  decode content = (out, Decoded vs ts).
Proof.
  rewrite parse_content_decode. destruct (decode content) as [o [m| |vs' ts']]; simpl;
    intros H; inversion H; reflexivity.
Qed.


(** What a successful decoding says about the buffer. *)
Lemma decode_Decoded content out vs ts :
  decode content = (out, Decoded vs ts) →
  let base := u32_at content 24 in
  let vertex_count := u16_at content (base + 10) in
  let scale := f32_at content (base + 12) in
  let vertices_ptr := u32_at content (base + 24) in
  let tri_info_ptr := u32_at content (base + 28) in
  let tri_count := u32_at content (base + tri_info_ptr + 8) in
  let tris_ptr := u32_at content (base + tri_info_ptr + 12) in
  60 ≤ buflen content ∧ take 4 content = MAP1 ∧
  base + 32 ≤ buflen content ∧
  (0 < vertex_count → base + vertices_ptr + 8 * vertex_count ≤ buflen content) ∧
  base + tri_info_ptr + 16 ≤ buflen content ∧
  (0 < tri_count → base + tris_ptr + 16 * tri_count ≤ buflen content) ∧
  vs = (λ i, vertex_at content scale (base + vertices_ptr + i * 8)) <$> range vertex_count ∧
  ts = (λ i, tri_at content (base + tris_ptr + i * 16)) <$> range tri_count.
Proof.
  unfold decode. cbv zeta.
  repeat match goal with
  | |- context [if ?c then _ else _] => destruct c eqn:?; try discriminate
  end.
  intros H; inversion H; subst; clear H.
  repeat match goal with
  | H : negb _ = false |- _ => apply negb_false_iff, bool_decide_eq_true in H
  | H : _ && _ = false |- _ => apply andb_false_iff in H
  end.
  repeat split; try done; lia.
Qed.

(** * Bitfield decode *)

Lemma land_low_bits (a : Z) (n : Z) : 0 ≤ n → Z.land a (Z.ones n) = a mod 2 ^ n.
Proof. apply Z.land_ones. Qed.

Lemma bitfield_div_mod (v n : list Z) (d : Z) :
  let t := Tri_init v n d in
  passable t = d mod 128 ∧ battle t = d / 128 mod 4 ∧
  location t = d / 2048 mod 4 ∧ soundType t = d / 32768 mod 4.
Proof.
  cbn [Tri_init passable battle location soundType].
  change 127 with (Z.ones 7). change 3 with (Z.ones 2).
  rewrite !land_low_bits, !Z.shiftr_div_pow2 by lia.
  repeat split.
Qed.

(** C5: the attribute word is decoded by four mask-and-shift
    extractions: passable is bits 0-6, battle bits 7-8, location bits
    11-12 and soundType bits 15-16.  The fields take disjoint slots of
    the word (together with the unused bits 9-10, 13-14 and 17 up they
    add up to it), 0x00008001 decodes to (1, 0, 0, 1), and the word with
    only bits 7 and 8 set decodes to passable 0, battle 3. *)
Theorem C5_bitfield_decode (v n : list Z) (d : Z) :
  let t := Tri_init v n d in
  passable t = d mod 2 ^ 7 ∧
  battle t = (d / 2 ^ 7) mod 2 ^ 2 ∧
  location t = (d / 2 ^ 11) mod 2 ^ 2 ∧
  soundType t = (d / 2 ^ 15) mod 2 ^ 2 ∧
  d = passable t + 2 ^ 7 * battle t + 2 ^ 9 * ((d / 2 ^ 9) mod 2 ^ 2)
      + 2 ^ 11 * location t + 2 ^ 13 * ((d / 2 ^ 13) mod 2 ^ 2)
      + 2 ^ 15 * soundType t + 2 ^ 17 * (d / 2 ^ 17) ∧
  (let e := Tri_init v n 0x00008001 in
   (passable e, battle e, location e, soundType e) = (1, 0, 0, 1)) ∧
  (let e := Tri_init v n (Z.lor (Z.shiftl 1 7) (Z.shiftl 1 8)) in
   (passable e, battle e) = (0, 3)).
Proof.
  destruct (bitfield_div_mod v n d) as (Hp & Hb & Hl & Hs).
  cbv zeta in *. rewrite Hp, Hb, Hl, Hs.
  change (2 ^ 7) with 128. change (2 ^ 2) with 4. change (2 ^ 11) with 2048.
  change (2 ^ 15) with 32768. change (2 ^ 9) with 512. change (2 ^ 13) with 8192.
  change (2 ^ 17) with 131072.
  repeat split; try reflexivity. Z.div_mod_to_equations. lia.
Qed.

(** * Passability colours *)

Lemma script_colors_outside (v : Z) : v < 48 ∨ 63 < v → script_colors !! v = None.
Proof.
  intros H. unfold script_colors. apply not_elem_of_list_to_map_1.
  rewrite <- list_fmap_compose. intros Hin.
  apply list_elem_of_fmap in Hin as (i & -> & Hi).
  apply elem_of_seqZ in Hi. simpl in H. lia.
Qed.

Lemma colors_small :
  forallb (λ v, String.eqb (get_passability_color v) (color_table v)) (seqZ 0 64) = true.
Proof. vm_compute. reflexivity. Qed.

Lemma get_passability_color_table (v : Z) : get_passability_color v = color_table v.
Proof.
  destruct (decide (0 ≤ v < 64)) as [Hv|Hv].
  - pose proof colors_small as H. rewrite forallb_forall in H.
    apply String.eqb_eq, H, list_elem_of_In, elem_of_seqZ. lia.
  - unfold get_passability_color, PASSABILITY_COLORS.
    rewrite lookup_union, script_colors_outside by lia.
    rewrite !lookup_insert_ne, lookup_empty by lia.
    unfold color_table.
    repeat match goal with
    | |- context [?a =? ?b] => destruct (Z.eqb_spec a b); [lia|]
    end.
    destruct (Z.leb_spec 48 v), (Z.leb_spec v 63); try lia; reflexivity.
Qed.

(** C6: the colour of a passable value is green for 0, red for 1,
    orange for 2, yellow for 14, purple for 48 to 63 and gray for every
    other value; the legend names these colours Passable, Blocked, Block
    NPC, Block Player, Scripted and Other. *)
Theorem C6_passability_classifier (v : Z) :
  get_passability_color v = color_table v ∧
  legend_label (get_passability_color v) = Some (label_table v) ∧
  get_passability_color 15 = "gray"%string.
Proof.
  rewrite get_passability_color_table. repeat split.
  unfold color_table, label_table.
  repeat match goal with
  | |- context [if ?c then _ else _] => destruct c; [reflexivity|]
  end.
  reflexivity.
Qed.

(** * [parse_map_file] in terms of [decode] *)

Lemma parse_map_file_contents fs file_path content :
  fs file_path = Contents content →
  parse_map_file fs file_path =
    match (decode content).2 with
    | OutOfBounds =>
        ((decode content).1 ++ [Print MsgStructError; Print MsgCorrupted], inr (None, None))
    | BadMagic _ => ((decode content).1, inr (None, None))
    | Decoded vs ts => ((decode content).1, inr (Some vs, Some ts))
    end.
Proof.
  intros Hfs. unfold parse_map_file. rewrite Hfs, parse_content_decode.
  destruct (decode content) as [out [m| |vs ts]]; reflexivity.
Qed.

Lemma parse_map_file_result fs file_path :
  (parse_map_file fs file_path).2 =
    inr match fs file_path with
        | Contents content =>
            match (decode content).2 with
            | Decoded vs ts => (Some vs, Some ts)
            | _ => (None, None)
            end
        | _ => (None, None)
        end.
Proof.
  destruct (fs file_path) as [| |content] eqn:Hfs.
  - unfold parse_map_file. by rewrite Hfs.
  - unfold parse_map_file. by rewrite Hfs.
  - rewrite (parse_map_file_contents _ _ _ Hfs). by destruct (decode content).2.
Qed.

(** Whatever the body of the [try] raises, the handlers return the pair
    of [None]s. *)
Lemma handlers_catch_all (body : M mesh) (file_path : string) out e :
  body = (out, inl e) →
  ∃ out', try_except body (parse_handler file_path) = (out ++ out', inr (None, None)).
Proof. intros ->. destruct e; simpl; eauto. Qed.

(** * The claims *)

(** C1: the claim says a triangle with a vertex index >= the vertex
    count is skipped and the other triangles are still rendered.  The
    code looks the vertices up (line 180) before it tests the indices
    (line 183): with three vertices, a valid triangle and a triangle
    that names vertex 3, [visualize_navmesh] raises [IndexError], prints
    no warning and draws nothing, and [main] lets the exception
    through. *)
Theorem C1_dangling_triangle_aborts :
  let vertices := [mkVertex 0 0 0; mkVertex 1 0 0; mkVertex 0 1 0] in
  let tris := [Tri_init [0; 1; 2] [-1; -1; -1] 0; Tri_init [0; 1; 3] [-1; -1; -1] 0] in
  visualize_navmesh (Some vertices) (Some tris) "map.vpa" = ([], inl IndexError) ∧
  (main (λ _, Contents (sample_file 3 0x3C23D70A
           [([0; 1; 2], [-1; -1; -1], 0); ([0; 1; 3], [-1; -1; -1], 0)])) "map.vpa").2
    = inl IndexError.
Proof. split; vm_compute; reflexivity. Qed.

(** C2, counterexample: the four bytes "XXXX" do not start with the
    tag, yet the header cannot be unpacked from them, so the parser
    takes the [struct.error] path and never prints the magic error. *)
Lemma C2_short_buffer_counterexample :
  let content := [x58; x58; x58; x58] in
  take 4 content ≠ MAP1 ∧
  parse_content content = ([], inl StructError) ∧
  (decode content).2 = OutOfBounds ∧
  parse_map_file (λ _, Contents content) "map.vpa"
    = ([Print MsgStructError; Print MsgCorrupted], inr (None, None)).
Proof. repeat split; vm_compute; done. Qed.

(** C2, amended: a buffer of at least 60 bytes (the size of the header
    struct) whose first four bytes are not "MAP1" fails with the magic
    error, which carries the four bytes, whatever the rest holds. *)
Theorem C2_bad_magic fs file_path content :
  fs file_path = Contents content →
  60 ≤ buflen content →
  take 4 content ≠ MAP1 →
  (decode content).2 = BadMagic (take 4 content) ∧
  parse_content content
    = ([Print (MsgInvalidMagic (PBytes (take 4 content)))], inr (None, None)) ∧
  parse_map_file fs file_path
    = ([Print (MsgInvalidMagic (PBytes (take 4 content)))], inr (None, None)).
Proof.
  intros Hfs Hlen Hmagic.
  assert (decode content
          = ([Print (MsgInvalidMagic (PBytes (take 4 content)))], BadMagic (take 4 content)))
    as Hd.
  { unfold decode. cbv zeta.
    destruct (Z.ltb_spec (buflen content) 60); [lia|].
    by rewrite bool_decide_eq_false_2. }
  rewrite (parse_map_file_contents _ _ _ Hfs), parse_content_decode, Hd. done.
Qed.

Lemma C2_bad_magic_witness :
  let content := sample_header [x58; x58; x58; x58] 60 in
  (decode content).2 = BadMagic (take 4 content) ∧
  parse_content content
    = ([Print (MsgInvalidMagic (PBytes (take 4 content)))], inr (None, None)) ∧
  parse_map_file (λ _, Contents content) "map.vpa"
    = ([Print (MsgInvalidMagic (PBytes (take 4 content)))], inr (None, None)).
Proof.
  apply (C2_bad_magic (λ _, Contents (sample_header [x58; x58; x58; x58] 60)) "map.vpa").
  - reflexivity.
  - vm_compute. discriminate.
  - vm_compute. discriminate.
Defined.

(** C4: the header struct is unpacked at offset 0 as the magic, 12 pad
    bytes, three unsigned 32-bit little-endian fields (offsets 16, 20,
    24), seven more (28 to 52) and a last one (56), 60 bytes in all;
    [navmesh_base_addr] is element 3 of the tuple, the third of the
    32-bit fields (offset 24), and the descriptor is read there. *)
Theorem C4_header_layout content :
  60 ≤ buflen content →
  take 4 content = MAP1 →
  calcsize header_format = ret 60 ∧
  unpack_from header_format content 0 =
    ret [PBytes (take 4 content); PInt (u32_at content 16);
         PInt (u32_at content 20); PInt (u32_at content 24);
         PInt (u32_at content 28); PInt (u32_at content 32);
         PInt (u32_at content 36); PInt (u32_at content 40);
         PInt (u32_at content 44); PInt (u32_at content 48);
         PInt (u32_at content 52); PInt (u32_at content 56)] ∧
  (parse_content content).1 !! 0%nat = Some (Print (MsgNavMeshBase (u32_at content 24))) ∧
  (if buflen content - u32_at content 24 <? 32
   then parse_content content
        = ([Print (MsgNavMeshBase (u32_at content 24))], inl StructError)
   else (parse_content content).1 !! 1%nat
        = Some (Print (MsgVertexCountScale (u16_at content (u32_at content 24 + 10))
                                           (f32_at content (u32_at content 24 + 12))))).
Proof.
  intros Hlen Hmagic. split; [reflexivity|]. split.
  { rewrite unpack_header. by destruct (Z.ltb_spec (buflen content) 60); [lia|]. }
  rewrite parse_content_decode. unfold decode. cbv zeta.
  destruct (Z.ltb_spec (buflen content) 60); [lia|].
  rewrite bool_decide_eq_true_2 by done. cbn [negb].
  destruct (_ <? 32); [done|].
  repeat match goal with
  | |- context [if ?c then _ else _] => destruct c
  end; done.
Qed.

Lemma C4_header_layout_witness :
  u32_at sample1 16 = 7 ∧ u32_at sample1 24 = 60 ∧
  (parse_content sample1).1 !! 0%nat = Some (Print (MsgNavMeshBase 60)) ∧
  (parse_content sample1).1 !! 1%nat
    = Some (Print (MsgVertexCountScale 3 (f32_to_float 0x3C23D70A))).
Proof.
  split; [reflexivity|]. split; [reflexivity|].
  assert (60 ≤ buflen sample1) as Hlen by (vm_compute; discriminate).
  destruct (C4_header_layout sample1 Hlen eq_refl) as (_ & _ & H0 & H1).
  split; [exact H0|exact H1].
Defined.

(** C3: in a decoded file the vertex table, the TriInfo record and the
    triangle table are found at [navmesh_base_addr] plus the stored
    pointer: vertex [i] is the record at [base + vertices_ptr + 8 i],
    the triangle count and pointer are the fields of the record at
    [base + tri_info_ptr], triangle [i] is the record at
    [base + tris_ptr + 16 i]; a base moved by [delta] under the same
    stored pointers moves each of the three addresses by [delta]. *)
Theorem C3_pointer_relative content out vs ts :
  parse_content content = (out, inr (Some vs, Some ts)) →
  let base := u32_at content 24 in
  let vertices_ptr := u32_at content (base + 24) in
  let tri_info_ptr := u32_at content (base + 28) in
  let tris_ptr := u32_at content (abs_addr base tri_info_ptr + 12) in
  vs = (λ i, vertex_at content (f32_at content (base + 12))
                       (abs_addr base vertices_ptr + i * 8))
         <$> range (u16_at content (base + 10)) ∧
  ts = (λ i, tri_at content (abs_addr base tris_ptr + i * 16))
         <$> range (u32_at content (abs_addr base tri_info_ptr + 8)) ∧
  ∀ delta,
    abs_addr (base + delta) vertices_ptr = abs_addr base vertices_ptr + delta ∧
    abs_addr (base + delta) tri_info_ptr = abs_addr base tri_info_ptr + delta ∧
    abs_addr (base + delta) tris_ptr = abs_addr base tris_ptr + delta.
Proof.
  intros H. apply parse_ok_decode, decode_Decoded in H.
  cbv zeta in *. destruct H as (_ & _ & _ & _ & _ & _ & Hvs & Hts).
  unfold abs_addr. split; [exact Hvs|]. split; [exact Hts|]. intros delta. lia.
Qed.

Lemma C3_pointer_relative_witness :
  ∃ vs ts,
    parse_content sample1 = ((parse_content sample1).1, inr (Some vs, Some ts)) ∧
    vs = (λ i, vertex_at sample1 (f32_at sample1 72) (abs_addr 60 32 + i * 8)) <$> range 3 ∧
    ts = (λ i, tri_at sample1 (abs_addr 60 72 + i * 16)) <$> range 1.
Proof.
  eexists _, _. split; [vm_compute; reflexivity|].
  destruct (C3_pointer_relative sample1 _ _ _ eq_refl) as (Hvs & Hts & _).
  split; [exact Hvs|exact Hts].
Defined.

Lemma read_exceeds_decode content :
  read_exceeds content → (decode content).2 = OutOfBounds.
Proof.
  intros H. unfold decode. cbv zeta.
  destruct H as [H|H0 Hm H|i base H0 Hm H1 Hi H|base H0 Hm H1 H|i base ti H0 Hm H1 H2 Hi H];
    unfold abs_addr in *.
  all: destruct (Z.ltb_spec (buflen content) 60); [done|try lia].
  all: rewrite bool_decide_eq_true_2 by done; cbn [negb].
  all: destruct (Z.ltb_spec (buflen content - u32_at content 24) 32); [done|try lia].
  all: match goal with
       | |- context [if ?c && ?d then _ else _] => destruct (c && d) eqn:E2; [done|]
       end.
  all: apply andb_false_iff in E2.
  1: { subst base. lia. }
  all: match goal with
       | |- context [if ?c <? 16 then _ else _] => destruct (Z.ltb_spec c 16); [done|try lia]
       end.
  1: { subst base. lia. }
  match goal with
  | |- context [if ?c && ?d then _ else _] => destruct (c && d) eqn:E4; [done|]
  end.
  apply andb_false_iff in E4. subst ti base. lia.
Qed.

(** C7: when a read of the chain does not fit in the buffer, the
    parser takes the [struct.error] path and [parse_map_file] returns
    the pair of [None]s; the vertices and triangles read so far are
    dropped. *)
Theorem C7_out_of_bounds fs file_path content :
  fs file_path = Contents content →
  read_exceeds content →
  (decode content).2 = OutOfBounds ∧
  (parse_content content).2 = inl StructError ∧
  parse_map_file fs file_path
    = ((decode content).1 ++ [Print MsgStructError; Print MsgCorrupted], inr (None, None)).
Proof.
  intros Hfs H. apply read_exceeds_decode in H.
  rewrite (parse_map_file_contents _ _ _ Hfs), parse_content_decode, H. done.
Qed.

Lemma C7_out_of_bounds_witness :
  let content := take 147 sample1 in
  (decode sample1).2 ≠ OutOfBounds ∧
  (decode content).2 = OutOfBounds ∧
  (parse_content content).2 = inl StructError ∧
  parse_map_file (λ _, Contents content) "map.vpa"
    = ((decode content).1 ++ [Print MsgStructError; Print MsgCorrupted], inr (None, None)).
Proof.
  split; [vm_compute; discriminate|].
  apply (C7_out_of_bounds (λ _, Contents (take 147 sample1)) "map.vpa"); [reflexivity|].
  apply (exceeds_tri _ 0); vm_compute; done.
Defined.

(** * Vertex components *)

Lemma byte_Z_range (b : byte) : 0 ≤ byte_Z b < 256.
Proof. unfold byte_Z. pose proof (Byte.to_N_bounded b). lia. Qed.

Lemma le_sint_2_range (bs : list byte) :
  (length bs ≤ 2)%nat → -32768 ≤ le_sint bs ≤ 32767.
Proof.
  intros Hlen. destruct bs as [|a [|b [|c bs]]]; [..|simpl in Hlen; lia].
  - vm_compute. split; discriminate.
  - unfold le_sint. cbn [le_uint foldr length]. pose proof (byte_Z_range a).
    change (2 ^ (8 * Z.of_nat 1 - 1)) with 128. change (2 ^ (8 * Z.of_nat 1)) with 256.
    destruct (_ <? 128); lia.
  - unfold le_sint. cbn [le_uint foldr length].
    pose proof (byte_Z_range a). pose proof (byte_Z_range b).
    change (2 ^ (8 * Z.of_nat 2 - 1)) with 32768. change (2 ^ (8 * Z.of_nat 2)) with 65536.
    destruct (Z.ltb_spec (byte_Z a + 256 * (byte_Z b + 256 * 0)) 32768); lia.
Qed.

Lemma i16_at_range content off : -32768 ≤ i16_at content off ≤ 32767.
Proof.
  unfold i16_at, bytes_at. apply le_sint_2_range. rewrite length_take. lia.
Qed.

Lemma forall_bits_spec (n : nat) :
  ∀ P, forall_bits n P = true → ∀ z, 0 ≤ z < 2 ^ Z.of_nat n → P z = true.
Proof.
  induction n as [|n IH]; intros P H z Hz.
  - simpl in Hz. by replace z with 0 by lia.
  - cbn [forall_bits] in H. apply andb_prop in H as [H0 H1].
    rewrite Nat2Z.inj_succ, Z.pow_succ_r in Hz by lia.
    destruct (Z.even z) eqn:E.
    + apply Z.even_spec in E as [k ->]. apply (IH _ H0). lia.
    + assert (Z.odd z = true) as Ho by (by rewrite <- Z.negb_even, E).
      apply Z.odd_spec in Ho as [k ->]. apply (IH _ H1). lia.
Qed.

Lemma zero_product_all : forall_bits 16 (λ u, zero_product (u - 32768)) = true.
Proof. vm_compute. reflexivity. Qed.

Lemma zero_product_i16 (raw : Z) (scale : float) :
  -32768 ≤ raw ≤ 32767 →
  scale = PrimFloat.zero ∨ scale = PrimFloat.neg_zero →
  PrimFloat.is_zero (PrimFloat.mul (float_of_int raw) scale) = true.
Proof.
  intros Hr Hs.
  pose proof (forall_bits_spec 16 _ zero_product_all (raw + 32768)) as H.
  cbv beta in H. replace (raw + 32768 - 32768) with raw in H by lia.
  unfold zero_product in H. apply andb_prop in H as [Hz Hn].
  - by destruct Hs as [-> | ->].
  - change (2 ^ Z.of_nat 16) with 65536. lia.
Qed.

Lemma vertex_at_zero content scale off :
  scale = PrimFloat.zero ∨ scale = PrimFloat.neg_zero →
  let v := vertex_at content scale off in
  PrimFloat.is_zero (vx v) = true ∧ PrimFloat.is_zero (vy v) = true ∧
  PrimFloat.is_zero (vz v) = true.
Proof.
  intros Hs. unfold vertex_at. cbn [vx vy vz].
  repeat split; apply zero_product_i16; auto using i16_at_range.
Qed.

(** C8: a decoded file yields exactly [vertex_count] vertices; vertex
    [i] comes from the 8-byte record at [vertex_addr + 8 i], which lies
    inside the buffer, and its coordinates are the three signed 16-bit
    components at offsets 0, 2 and 4 of the record, each multiplied by
    the scale.  With a scale of zero (of either sign) every coordinate
    compares equal to 0.0; the raw component 100 under the binary32
    scale nearest to 0.01 gives 1.0 up to 2^-24. *)
Theorem C8_vertex_records content out vs ts :
  parse_content content = (out, inr (Some vs, Some ts)) →
  let base := u32_at content 24 in
  let vertex_count := u16_at content (base + 10) in
  let scale := f32_at content (base + 12) in
  let vertex_addr := base + u32_at content (base + 24) in
  length vs = Z.to_nat vertex_count ∧
  (∀ i, 0 ≤ i < vertex_count →
     vertex_addr + i * 8 + 8 ≤ buflen content ∧
     vs !! Z.to_nat i =
       Some (mkVertex
               (PrimFloat.mul (float_of_int (i16_at content (vertex_addr + i * 8))) scale)
               (PrimFloat.mul (float_of_int (i16_at content (vertex_addr + i * 8 + 2))) scale)
               (PrimFloat.mul (float_of_int (i16_at content (vertex_addr + i * 8 + 4))) scale))) ∧
  (scale = PrimFloat.zero ∨ scale = PrimFloat.neg_zero →
   ∀ v, v ∈ vs →
     PrimFloat.is_zero (vx v) = true ∧ PrimFloat.is_zero (vy v) = true ∧
     PrimFloat.is_zero (vz v) = true) ∧
  PrimFloat.leb
    (PrimFloat.abs
       (PrimFloat.sub (PrimFloat.mul (float_of_int 100) (f32_to_float 0x3C23D70A)) 1))
    0x1p-24 = true.
Proof.
  intros H. apply parse_ok_decode, decode_Decoded in H.
  cbv zeta in *. destruct H as (_ & _ & _ & Hin & _ & _ & Hvs & _).
  split; [|split; [|split]].
  - rewrite Hvs, length_fmap. apply length_seqZ.
  - intros i Hi. split; [lia|].
    rewrite Hvs, list_lookup_fmap. unfold range.
    rewrite lookup_seqZ_lt by lia. cbn [fmap option_fmap option_map].
    rewrite Z2Nat.id, Z.add_0_l by lia. reflexivity.
  - intros Hs v Hv. rewrite Hvs in Hv.
    apply list_elem_of_fmap in Hv as (i & -> & _). by apply vertex_at_zero.
  - vm_compute. reflexivity.
Qed.

Lemma C8_vertex_records_witness :
  ∃ vs ts,
    parse_content sample1 = ((parse_content sample1).1, inr (Some vs, Some ts)) ∧
    length vs = 3%nat ∧
    vs !! 2%nat = Some (mkVertex 0x1.ffffff4p-1 (-0x1.ffffff4p-1) 0).
Proof.
  eexists _, _. split; [vm_compute; reflexivity|].
  destruct (C8_vertex_records sample1 _ _ _ eq_refl) as (Hlen & Hi & _).
  split; [exact Hlen|].
  refine (proj2 (Hi 2 _)). vm_compute. done.
Defined.

(** C9: [parse_map_file] always returns a pair and never lets an
    exception out.  A missing file, a failing [open], a wrong tag and a
    read outside the buffer all give the same pair of [None]s, so the
    value returned for a wrong tag equals the one returned for a read
    out of bounds; only a decoded file gives the two lists. *)
Theorem C9_no_exception_escapes fs file_path :
  (parse_map_file fs file_path).2 =
    inr match fs file_path with
        | NoSuchFile => (None, None)
        | OpenFails => (None, None)
        | Contents content =>
            match (decode content).2 with
            | BadMagic _ => (None, None)
            | OutOfBounds => (None, None)
            | Decoded vs ts => (Some vs, Some ts)
            end
        end.
Proof.
  rewrite parse_map_file_result.
  destruct (fs file_path) as [| |content]; [done..|].
  by destruct (decode content).2.
Qed.

(** * Main *)

Lemma bind_pair {A B} (out : list event) (a : A) (k : A → M B) :
  ((out, inr a) ≫= k) = (out ++ (k a).1, (k a).2).
Proof. unfold mbind, M_bind, bind. by destruct (k a). Qed.

Lemma main_unfold fs file_path :
  file_path ≠ ""%string →
  main fs file_path =
    let r := parse_map_file fs file_path in
    match r.2 with
    | inl e => (Print (MsgLoading file_path) :: r.1, inl e)
    | inr (vertices, tris) =>
        let k := if truthy vertices && truthy tris
                 then visualize_navmesh vertices tris file_path
                 else print MsgFailedToParse in
        (Print (MsgLoading file_path) :: r.1 ++ k.1, k.2)
    end.
Proof.
  intros Hne. unfold main.
  destruct (String.eqb_spec file_path ""); [done|].
  rewrite bind_print. cbv zeta.
  destruct (parse_map_file fs file_path) as [out [e|[vertices tris]]]; [reflexivity|].
  rewrite bind_pair. reflexivity.
Qed.

(** C10: when the file decodes to an empty vertex list or an empty
    triangle list, [main] prints the failure message after what the
    parser printed and calls no plotting function, as it does for a
    file that fails to parse; [visualize_navmesh] itself only prints
    "No data to visualize." on such lists. *)
Theorem C10_empty_mesh_taken_as_failure fs file_path content out vs ts :
  file_path ≠ ""%string →
  fs file_path = Contents content →
  parse_content content = (out, inr (Some vs, Some ts)) →
  vs = [] ∨ ts = [] →
  main fs file_path
    = (Print (MsgLoading file_path) :: out ++ [Print MsgFailedToParse], inr tt) ∧
  visualize_navmesh (Some vs) (Some ts) file_path = ([Print MsgNoData], inr tt) ∧
  ∀ fs' out',
    parse_map_file fs' file_path = (out', inr (None, None)) →
    main fs' file_path
      = (Print (MsgLoading file_path) :: out' ++ [Print MsgFailedToParse], inr tt).
Proof.
  intros Hne Hfs Hparse Hempty. apply parse_ok_decode in Hparse.
  split; [|split].
  - rewrite main_unfold, (parse_map_file_contents _ _ _ Hfs), Hparse by done.
    cbn [fst snd]. by destruct Hempty as [-> | ->]; [|destruct vs].
  - by destruct Hempty as [-> | ->]; [|destruct vs].
  - intros fs' out' H. rewrite main_unfold, H by done. reflexivity.
Qed.

Lemma C10_empty_mesh_taken_as_failure_witness :
  let content := sample_file 0 0x3C23D70A [([0; 1; 2], [-1; -1; -1], 0)] in
  ∃ out ts,
    parse_content content = (out, inr (Some [], Some ts)) ∧
    main (λ _, Contents content) "map.vpa"
      = (Print (MsgLoading "map.vpa") :: out ++ [Print MsgFailedToParse], inr tt) ∧
    visualize_navmesh (Some []) (Some ts) "map.vpa" = ([Print MsgNoData], inr tt).
Proof.
  eexists _, _. split; [vm_compute; reflexivity|].
  destruct (C10_empty_mesh_taken_as_failure
              (λ _, Contents (sample_file 0 0x3C23D70A [([0; 1; 2], [-1; -1; -1], 0)]))
              "map.vpa" _ _ _ _ ltac:(discriminate) eq_refl eq_refl (or_introl eq_refl))
    as (Hmain & Hvis & _).
  split; [exact Hmain|exact Hvis].
Defined.

(** * Further properties of the parser *)

(** The body of the [try] raises nothing but [struct.error]: the tuple
    indexing and the uses of the unpacked values never fail, so for a
    file that could be read the last [except] clause is never entered
    and no "unexpected error" line is printed. *)
Theorem parse_raises_only_struct_error fs file_path content :
  fs file_path = Contents content →
  (∀ e, (parse_content content).2 = inl e → e = StructError) ∧
  ∀ e, Print (MsgUnexpected e) ∉ (parse_map_file fs file_path).1.
Proof.
  intros Hfs. split.
  - intros e. rewrite parse_content_decode.
    destruct (decode content).2; simpl; congruence.
  - intros e. rewrite (parse_map_file_contents _ _ _ Hfs).
    assert (Print (MsgUnexpected e) ∉ (decode content).1) as Hout.
    { unfold decode. cbv zeta.
      repeat match goal with
      | |- context [if ?c then _ else _] => destruct c
      end; cbn [fst app]; rewrite ?not_elem_of_cons; rewrite ?elem_of_nil; naive_solver. }
    destruct (decode content).2; cbn [fst]; [done| |done].
    rewrite elem_of_app, !elem_of_cons, elem_of_nil.
    intros [H|[H|[H|[]]]]; [done|discriminate..].
Qed.

Lemma parse_raises_only_struct_error_witness :
  (∀ e, (parse_content (take 147 sample1)).2 = inl e → e = StructError) ∧
  ∀ e, Print (MsgUnexpected e)
         ∉ (parse_map_file (λ _, Contents (take 147 sample1)) "map.vpa").1.
Proof.
  exact (parse_raises_only_struct_error (λ _, Contents (take 147 sample1)) "map.vpa"
           (take 147 sample1) eq_refl).
Defined.

(** A file shorter than the 60-byte header, the empty file included,
    fails before anything is printed about its contents: the two
    [struct.error] lines are the whole output and the result is the
    pair of [None]s, whatever the bytes are. *)
Theorem short_file_fails fs file_path content :
  fs file_path = Contents content →
  buflen content < 60 →
  parse_map_file fs file_path
    = ([Print MsgStructError; Print MsgCorrupted], inr (None, None)).
Proof.
  intros Hfs Hlen. rewrite (parse_map_file_contents _ _ _ Hfs).
  unfold decode. cbv zeta. by destruct (Z.ltb_spec (buflen content) 60); [|lia].
Qed.

Lemma short_file_fails_witness :
  parse_map_file (λ _, Contents []) "map.vpa"
    = ([Print MsgStructError; Print MsgCorrupted], inr (None, None)) ∧
  parse_map_file (λ _, Contents (take 59 sample1)) "map.vpa"
    = ([Print MsgStructError; Print MsgCorrupted], inr (None, None)).
Proof.
  split.
  - apply (short_file_fails (λ _, Contents []) "map.vpa" []); [reflexivity|].
    vm_compute. reflexivity.
  - apply (short_file_fails (λ _, Contents (take 59 sample1)) "map.vpa" (take 59 sample1));
      [reflexivity|].
    vm_compute. reflexivity.
Defined.

(** Packing field values into an attribute word and decoding it gives
    the values back; bits 9-10, 13-14 and 17 upwards carry nothing. *)
Theorem bitfield_roundtrip (v n : list Z) (p b l s u1 u2 hi : Z) :
  0 ≤ p < 2 ^ 7 → 0 ≤ b < 2 ^ 2 → 0 ≤ l < 2 ^ 2 → 0 ≤ s < 2 ^ 2 →
  0 ≤ u1 < 2 ^ 2 → 0 ≤ u2 < 2 ^ 2 →
  let t := Tri_init v n (p + 2 ^ 7 * b + 2 ^ 9 * u1 + 2 ^ 11 * l
                         + 2 ^ 13 * u2 + 2 ^ 15 * s + 2 ^ 17 * hi) in
  passable t = p ∧ battle t = b ∧ location t = l ∧ soundType t = s.
Proof.
  intros Hp Hb Hl Hs H1 H2.
  pose proof (bitfield_div_mod v n
    (p + 2 ^ 7 * b + 2 ^ 9 * u1 + 2 ^ 11 * l + 2 ^ 13 * u2 + 2 ^ 15 * s + 2 ^ 17 * hi))
    as (Ep & Eb & El & Es).
  cbv zeta in *. rewrite Ep, Eb, El, Es.
  change (2 ^ 7) with 128 in *. change (2 ^ 2) with 4 in *. change (2 ^ 11) with 2048.
  change (2 ^ 15) with 32768. change (2 ^ 9) with 512. change (2 ^ 13) with 8192.
  change (2 ^ 17) with 131072.
  repeat split; Z.div_mod_to_equations; lia.
Qed.

Lemma bitfield_roundtrip_witness :
  let t := Tri_init [0; 1; 2] [-1; -1; -1]
             (14 + 2 ^ 7 * 3 + 2 ^ 9 * 1 + 2 ^ 11 * 2 + 2 ^ 13 * 3 + 2 ^ 15 * 1 + 2 ^ 17 * 5) in
  passable t = 14 ∧ battle t = 3 ∧ location t = 2 ∧ soundType t = 1.
Proof.
  apply (bitfield_roundtrip [0; 1; 2] [-1; -1; -1] 14 3 2 1 1 3 5); lia.
Defined.

Lemma le_uint_bound (bs : list byte) : le_uint bs < 256 ^ Z.of_nat (length bs).
Proof.
  induction bs as [|b bs IH]; [done|].
  cbn [le_uint foldr length]. fold (le_uint bs).
  rewrite Nat2Z.inj_succ, Z.pow_succ_r by lia.
  pose proof (byte_Z_range b). lia.
Qed.

Lemma u16_at_range content off : 0 ≤ u16_at content off < 65536.
Proof.
  unfold u16_at. split; [apply le_uint_nonneg|].
  pose proof (le_uint_bound (bytes_at content off 2)) as H.
  assert (length (bytes_at content off 2) ≤ 2)%nat as Hl
    by (unfold bytes_at; rewrite length_take; lia).
  assert (256 ^ Z.of_nat (length (bytes_at content off 2)) ≤ 256 ^ 2)
    by (apply Z.pow_le_mono_r; lia).
  lia.
Qed.

Lemma u32_at_range content off : 0 ≤ u32_at content off < 2 ^ 32.
Proof.
  unfold u32_at. split; [apply le_uint_nonneg|].
  pose proof (le_uint_bound (bytes_at content off 4)) as H.
  assert (length (bytes_at content off 4) ≤ 4)%nat as Hl
    by (unfold bytes_at; rewrite length_take; lia).
  assert (256 ^ Z.of_nat (length (bytes_at content off 4)) ≤ 256 ^ 4)
    by (apply Z.pow_le_mono_r; lia).
  change (2 ^ 32) with (256 ^ 4). lia.
Qed.

Lemma Tri_init_ranges (v n : list Z) (d : Z) :
  let t := Tri_init v n d in
  0 ≤ passable t < 128 ∧ 0 ≤ battle t < 4 ∧ 0 ≤ location t < 4 ∧ 0 ≤ soundType t < 4.
Proof.
  destruct (bitfield_div_mod v n d) as (Ep & Eb & El & Es).
  cbv zeta in *. rewrite Ep, Eb, El, Es.
  repeat split; Z.div_mod_to_equations; lia.
Qed.

Lemma tri_at_invariants content off :
  let t := tri_at content off in
  length (vertex_indices t) = 3%nat ∧ length (neighbour_indices t) = 3%nat ∧
  (∀ i, i ∈ vertex_indices t → 0 ≤ i < 65536) ∧
  (∀ i, i ∈ neighbour_indices t → -32768 ≤ i ≤ 32767) ∧
  0 ≤ passable t < 128 ∧ 0 ≤ battle t < 4 ∧ 0 ≤ location t < 4 ∧ 0 ≤ soundType t < 4.
Proof.
  cbv zeta. split; [done|]. split; [done|]. split; [|split].
  - intros j Hj. unfold tri_at in Hj. cbn [Tri_init vertex_indices] in Hj.
    rewrite !elem_of_cons, elem_of_nil in Hj.
    destruct Hj as [-> | [-> | [-> | []]]]; apply u16_at_range.
  - intros j Hj. unfold tri_at in Hj. cbn [Tri_init neighbour_indices] in Hj.
    rewrite !elem_of_cons, elem_of_nil in Hj.
    destruct Hj as [-> | [-> | [-> | []]]]; apply i16_at_range.
  - apply Tri_init_ranges.
Qed.

(** A decoded file yields exactly [tri_count] triangles; triangle [i]
    comes from the 16-byte record at [tris_addr + 16 i], inside the
    buffer: three unsigned 16-bit vertex indices, three signed 16-bit
    neighbour indices and the attribute word.  So every vertex index is
    in 0..65535, every neighbour index in -32768..32767 and the decoded
    fields are in range (passable below 128, the others below 4). *)
Theorem decoded_triangles content out vs ts :
  parse_content content = (out, inr (Some vs, Some ts)) →
  let base := u32_at content 24 in
  let tri_info := base + u32_at content (base + 28) in
  let tri_count := u32_at content (tri_info + 8) in
  let tris_addr := base + u32_at content (tri_info + 12) in
  length ts = Z.to_nat tri_count ∧
  (∀ i, 0 ≤ i < tri_count →
     let off := tris_addr + i * 16 in
     off + 16 ≤ buflen content ∧
     ts !! Z.to_nat i =
       Some (Tri_init
               [u16_at content off; u16_at content (off + 2); u16_at content (off + 4)]
               [i16_at content (off + 6); i16_at content (off + 8); i16_at content (off + 10)]
               (u32_at content (off + 12)))) ∧
  ∀ t, t ∈ ts →
    length (vertex_indices t) = 3%nat ∧ length (neighbour_indices t) = 3%nat ∧
    (∀ i, i ∈ vertex_indices t → 0 ≤ i < 65536) ∧
    (∀ i, i ∈ neighbour_indices t → -32768 ≤ i ≤ 32767) ∧
    0 ≤ passable t < 128 ∧ 0 ≤ battle t < 4 ∧ 0 ≤ location t < 4 ∧ 0 ≤ soundType t < 4.
Proof.
  intros H. apply parse_ok_decode, decode_Decoded in H.
  cbv zeta in *. destruct H as (_ & _ & _ & _ & _ & Hin & _ & Hts).
  split; [|split].
  - rewrite Hts, length_fmap. apply length_seqZ.
  - intros i Hi. split; [lia|].
    rewrite Hts, list_lookup_fmap. unfold range.
    rewrite lookup_seqZ_lt by lia. cbn [fmap option_fmap option_map].
    rewrite Z2Nat.id, Z.add_0_l by lia. reflexivity.
  - intros t Ht. rewrite Hts in Ht. apply list_elem_of_fmap in Ht as (i & -> & _).
    apply tri_at_invariants.
Qed.

Lemma decoded_triangles_witness :
  ∃ vs ts,
    parse_content sample1 = ((parse_content sample1).1, inr (Some vs, Some ts)) ∧
    length ts = 1%nat ∧
    ts !! 0%nat = Some (Tri_init [0; 1; 2] [-1; -1; -1] 0).
Proof.
  eexists _, _. split; [vm_compute; reflexivity|].
  destruct (decoded_triangles sample1 _ _ _ eq_refl) as (Hlen & Hi & _).
  split; [exact Hlen|].
  refine (proj2 (Hi 0 _)). vm_compute. done.
Defined.

(** * The triangle loop of [visualize_navmesh] *)

Lemma getitem_py_lookup {A} (t : list A) (i : Z) :
  getitem t i = match py_lookup t i with
                | Some x => ret x
                | None => raise IndexError
                end.
Proof.
  unfold getitem, py_lookup. cbv zeta.
  destruct (Z.ltb_spec i 0), (Z.ltb_spec i (- Z.of_nat (length t))),
    (Z.leb_spec (Z.of_nat (length t)) i); try lia; cbn [orb].
  all: repeat match goal with
       | |- context [?a <? ?b] => destruct (Z.ltb_spec a b); try lia
       | |- context [?a <=? ?b] => destruct (Z.leb_spec a b); try lia
       end; cbn [orb]; try reflexivity.
Qed.

Lemma comprehension_mapM {A B} (f : A → M B) (g : A → option B) (e : exn) (xs : list A) :
  (∀ x, f x = match g x with Some y => ret y | None => raise e end) →
  comprehension f xs = match mapM g xs with Some ys => ret ys | None => raise e end.
Proof.
  intros Hf. induction xs as [|x xs IH]; [done|].
  cbn [comprehension mapM]. rewrite Hf.
  destruct (g x) as [y|]; [|done]. rewrite bind_ret', IH.
  cbn. destruct (mapM g xs) as [ys|]; [|done]. by rewrite !bind_ret'.
Qed.

Lemma py_lookup_Some_lt {A} (t : list A) (i : Z) (x : A) :
  py_lookup t i = Some x → i < Z.of_nat (length t).
Proof.
  unfold py_lookup. cbv zeta.
  destruct (Z.leb_spec (Z.of_nat (length t)) i); [|done].
  by rewrite orb_true_r.
Qed.

Lemma mapM_py_lookup_no_overrun {A} (t : list A) (idxs : list Z) (xs : list A) :
  mapM (py_lookup t) idxs = Some xs →
  existsb (λ i, Z.of_nat (length t) <=? i) idxs = false.
Proof.
  revert xs. induction idxs as [|i idxs IH]; intros xs H; [done|].
  cbn [mapM] in H. destruct (py_lookup t i) as [x|] eqn:Hx; [|done].
  cbn in H. destruct (mapM (py_lookup t) idxs) as [ys|]; [|done].
  cbn [existsb]. rewrite (IH ys eq_refl), orb_false_r.
  apply py_lookup_Some_lt in Hx. by destruct (Z.leb_spec (Z.of_nat (length t)) i); [lia|].
Qed.

Lemma add_polygon_eq vertices tri polygons colors :
  add_polygon vertices tri (polygons, colors) =
    match polygon_of vertices tri with
    | Some polygon =>
        ret (polygons ++ [polygon], colors ++ [get_passability_color (passable tri)])
    | None => raise IndexError
    end.
Proof.
  unfold add_polygon, polygon_of.
  rewrite (comprehension_mapM _ (py_lookup vertices) IndexError)
    by apply getitem_py_lookup.
  destruct (mapM _ _) as [points|] eqn:Hm; [|done].
  rewrite bind_ret', (mapM_py_lookup_no_overrun _ _ _ Hm). reflexivity.
Qed.

Lemma render_loop vertices tris polygons colors :
  for_each tris (add_polygon vertices) (polygons, colors) =
    match mapM (polygon_of vertices) tris with
    | Some ps => ret (polygons ++ ps,
                      colors ++ ((λ t, get_passability_color (passable t)) <$> tris))
    | None => raise IndexError
    end.
Proof.
  revert polygons colors. induction tris as [|t tris IH]; intros polygons colors.
  - cbn. by rewrite !app_nil_r.
  - cbn [for_each mapM]. rewrite add_polygon_eq.
    destruct (polygon_of vertices t) as [p|]; [|done].
    rewrite bind_ret', IH. cbn.
    destruct (mapM (polygon_of vertices) tris) as [ps|]; [|done].
    cbn. by rewrite <- !app_assoc.
Qed.

Lemma set_limits_ok (xs ys zs : list float) :
  xs ≠ [] → ys ≠ [] → zs ≠ [] →
  ∃ xlo xhi ylo yhi zlo zhi,
    set_limits xs ys zs
      = ([SetLim "x" xlo xhi; SetLim "y" ylo yhi; SetLim "z" zlo zhi], inr tt).
Proof.
  intros Hx Hy Hz.
  destruct xs as [|x xs]; [done|]. destruct ys as [|y ys]; [done|].
  destruct zs as [|z zs]; [done|].
  unfold set_limits, py_max, py_min. rewrite !bind_ret'.
  by eexists _, _, _, _, _, _.
Qed.

Lemma visualize_navmesh_eq vertices tris filename :
  vertices ≠ [] → tris ≠ [] →
  ∃ xlo xhi ylo yhi zlo zhi,
    visualize_navmesh (Some vertices) (Some tris) filename =
      match mapM (polygon_of vertices) tris with
      | None => ([], inl IndexError)
      | Some polygons =>
          ([AddCollection3d polygons
              ((λ t, get_passability_color (passable t)) <$> tris);
            SetLim "x" xlo xhi; SetLim "y" ylo yhi; SetLim "z" zlo zhi;
            Legend legend_entries; Title filename; Show], inr tt)
      end.
Proof.
  intros Hv Ht.
  destruct vertices as [|v vertices]; [done|]. destruct tris as [|t tris]; [done|].
  destruct (set_limits_ok (vx <$> v :: vertices) (vy <$> v :: vertices)
              (vz <$> v :: vertices)) as (xlo & xhi & ylo & yhi & zlo & zhi & Hlim);
    [done..|].
  exists xlo, xhi, ylo, yhi, zlo, zhi.
  unfold visualize_navmesh. cbn [truthy negb orb default from_option]. unfold id.
  rewrite render_loop.
  destruct (mapM (polygon_of (v :: vertices)) (t :: tris)) as [ps|]; [|done].
  rewrite bind_ret'. cbn [app]. cbv zeta.
  cbn [fmap list_fmap] in *. rewrite Hlim. reflexivity.
Qed.

(** The warning of line 184 is never printed: every index the test of
    line 183 would reject has already made the lookup of line 180
    raise, so the "Skipping" branch cannot be reached. *)
Theorem skipping_branch_unreachable vertices tris filename tri :
  Print (MsgSkipping tri) ∉ (visualize_navmesh vertices tris filename).1.
Proof.
  destruct vertices as [[|v vertices]|], tris as [[|t tris]|];
    try (cbn; rewrite elem_of_cons, elem_of_nil; intros [[=]|[]]).
  destruct (visualize_navmesh_eq (v :: vertices) (t :: tris) filename)
    as (xlo & xhi & ylo & yhi & zlo & zhi & ->); [done..|].
  destruct (mapM _ _); cbn [fst].
  - rewrite !elem_of_cons, elem_of_nil.
    intros [H|[H|[H|[H|[H|[H|[H|[]]]]]]]]; discriminate.
  - apply not_elem_of_nil.
Qed.

Lemma py_lookup_None {A} (t : list A) (i : Z) :
  py_lookup t i = None ↔ i < - Z.of_nat (length t) ∨ Z.of_nat (length t) ≤ i.
Proof.
  unfold py_lookup. cbv zeta.
  destruct (Z.ltb_spec i (- Z.of_nat (length t))), (Z.leb_spec (Z.of_nat (length t)) i);
    cbn [orb]; try (split; [lia|done]).
  rewrite lookup_ge_None. destruct (Z.ltb_spec i 0); lia.
Qed.


Lemma polygon_of_None vertices tri :
  polygon_of vertices tri = None ↔
  ∃ i, i ∈ vertex_indices tri ∧
       (i < - Z.of_nat (length vertices) ∨ Z.of_nat (length vertices) ≤ i).
Proof.
  unfold polygon_of. rewrite fmap_None, mapM_None, Exists_exists.
  by setoid_rewrite py_lookup_None.
Qed.



(** A triangle that names a vertex at or beyond the end of the vertex
    list makes [visualize_navmesh] raise [IndexError] before anything
    is printed or drawn, wherever the triangle stands in the list; the
    triangles with valid indices are not rendered either. *)
Theorem dangling_index_raises vertices tris filename tri i :
  vertices ≠ [] →
  tri ∈ tris → i ∈ vertex_indices tri → Z.of_nat (length vertices) ≤ i →
  visualize_navmesh (Some vertices) (Some tris) filename = ([], inl IndexError).
Proof.
  intros Hv Ht Hi Hge.
  destruct (visualize_navmesh_eq vertices tris filename)
    as (xlo & xhi & ylo & yhi & zlo & zhi & ->); [done|by intros ->; inversion Ht|].
  assert (mapM (polygon_of vertices) tris = None) as ->; [|done].
  apply mapM_None, Exists_exists. exists tri. split; [done|].
  apply polygon_of_None. eauto.
Qed.

Lemma dangling_index_raises_witness :
  visualize_navmesh
    (Some [mkVertex 0 0 0; mkVertex 1 0 0])
    (Some [Tri_init [0; 1; 0] [-1; -1; -1] 0; Tri_init [0; 1; 2] [-1; -1; -1] 0;
           Tri_init [1; 0; 1] [-1; -1; -1] 0])
    "map.vpa" = ([], inl IndexError).
Proof.
  apply (dangling_index_raises _ _ _ (Tri_init [0; 1; 2] [-1; -1; -1] 0) 2).
  - discriminate.
  - apply list_elem_of_lookup_2 with 1%nat. reflexivity.
  - apply list_elem_of_lookup_2 with 2%nat. reflexivity.
  - vm_compute. discriminate.
Defined.



(** * When [main] fails *)





(** * Which bytes matter *)

Lemma decode_intro content :
  let base := u32_at content 24 in
  let vertex_count := u16_at content (base + 10) in
  let scale := f32_at content (base + 12) in
  let vertices_ptr := u32_at content (base + 24) in
  let tri_info_ptr := u32_at content (base + 28) in
  let tri_count := u32_at content (base + tri_info_ptr + 8) in
  let tris_ptr := u32_at content (base + tri_info_ptr + 12) in
  60 ≤ buflen content → take 4 content = MAP1 →
  base + 32 ≤ buflen content →
  (0 < vertex_count → base + vertices_ptr + 8 * vertex_count ≤ buflen content) →
  base + tri_info_ptr + 16 ≤ buflen content →
  (0 < tri_count → base + tris_ptr + 16 * tri_count ≤ buflen content) →
  (decode content).2 =
    Decoded ((λ i, vertex_at content scale (base + vertices_ptr + i * 8)) <$> range vertex_count)
            ((λ i, tri_at content (base + tris_ptr + i * 16)) <$> range tri_count).
Proof.
  cbv zeta. intros H0 Hm H1 H2 H3 H4. unfold decode. cbv zeta.
  destruct (Z.ltb_spec (buflen content) 60); [lia|].
  rewrite bool_decide_eq_true_2 by done. cbn [negb].
  destruct (Z.ltb_spec (buflen content - u32_at content 24) 32); [lia|].
  match goal with
  | |- context [if ?c && ?d then _ else _] => destruct (c && d) eqn:E2
  end.
  { apply andb_true_iff in E2 as [Ea Eb]. apply Z.ltb_lt in Ea, Eb. lia. }
  match goal with
  | |- context [if ?c <? 16 then _ else _] => destruct (Z.ltb_spec c 16); [lia|]
  end.
  match goal with
  | |- context [if ?c && ?d then _ else _] => destruct (c && d) eqn:E4
  end.
  { apply andb_true_iff in E4 as [Ea Eb]. apply Z.ltb_lt in Ea, Eb. lia. }
  reflexivity.
Qed.

Lemma bytes_at_take (content : list byte) (E : nat) (off : Z) (n : nat) :
  0 ≤ off → (Z.to_nat off + n ≤ E)%nat →
  bytes_at (take E content) off n = bytes_at content off n.
Proof.
  intros Hoff Hle. unfold bytes_at.
  replace E with (Z.to_nat off + (E - Z.to_nat off))%nat at 1 by lia.
  rewrite <- take_drop_commute, take_take. f_equal. lia.
Qed.

Lemma bytes_at_agree (c c' : list byte) (E : nat) (off : Z) (n : nat) :
  take E c' = take E c → 0 ≤ off → (Z.to_nat off + n ≤ E)%nat →
  bytes_at c' off n = bytes_at c off n.
Proof.
  intros Heq Hoff Hle.
  by rewrite <- (bytes_at_take c' E), <- (bytes_at_take c E), Heq.
Qed.

(** Moving the records: a buffer [c'] that stores the base [delta]
    higher and holds, from there on, the bytes [c] holds from its base
    up to its extent. *)
Section transport.
Variables (c c' : list byte) (delta : Z).
Hypothesis Hagree : ∀ off n,
  u32_at c 24 ≤ off → off + Z.of_nat n ≤ extent c →
  bytes_at c' (off + delta) n = bytes_at c off n.

Lemma agree_u16 off :
  u32_at c 24 ≤ off → off + 2 ≤ extent c → u16_at c' (off + delta) = u16_at c off.
Proof. intros. unfold u16_at. by rewrite Hagree by lia. Qed.

Lemma agree_i16 off :
  u32_at c 24 ≤ off → off + 2 ≤ extent c → i16_at c' (off + delta) = i16_at c off.
Proof. intros. unfold i16_at. by rewrite Hagree by lia. Qed.

Lemma agree_u32 off :
  u32_at c 24 ≤ off → off + 4 ≤ extent c → u32_at c' (off + delta) = u32_at c off.
Proof. intros. unfold u32_at. by rewrite Hagree by lia. Qed.

Lemma agree_f32 off :
  u32_at c 24 ≤ off → off + 4 ≤ extent c → f32_at c' (off + delta) = f32_at c off.
Proof. intros. unfold f32_at. by rewrite agree_u32. Qed.

Lemma agree_vertex scale off :
  u32_at c 24 ≤ off → off + 8 ≤ extent c →
  vertex_at c' scale (off + delta) = vertex_at c scale off.
Proof.
  intros. unfold vertex_at.
  replace (off + delta + 2) with (off + 2 + delta) by lia.
  replace (off + delta + 4) with (off + 4 + delta) by lia.
  by rewrite !agree_i16 by lia.
Qed.

Lemma agree_tri off :
  u32_at c 24 ≤ off → off + 16 ≤ extent c →
  tri_at c' (off + delta) = tri_at c off.
Proof.
  intros. unfold tri_at.
  replace (off + delta + 2) with (off + 2 + delta) by lia.
  replace (off + delta + 4) with (off + 4 + delta) by lia.
  replace (off + delta + 6) with (off + 6 + delta) by lia.
  replace (off + delta + 8) with (off + 8 + delta) by lia.
  replace (off + delta + 10) with (off + 10 + delta) by lia.
  replace (off + delta + 12) with (off + 12 + delta) by lia.
  by rewrite !agree_u16, !agree_i16, agree_u32 by lia.
Qed.

Lemma decode_transport out vs ts :
  decode c = (out, Decoded vs ts) →
  60 ≤ buflen c' → take 4 c' = take 4 c →
  u32_at c' 24 = u32_at c 24 + delta →
  extent c + delta ≤ buflen c' →
  (decode c').2 = Decoded vs ts.
Proof.
  intros Hd Hlen Hmagic Hbase Hroom.
  apply decode_Decoded in Hd. cbv zeta in Hd.
  destruct Hd as (H0 & Hm & H1 & H2 & H3 & H4 & -> & ->).
  pose proof (u32_at_range c (u32_at c 24 + 24)) as Rv.
  pose proof (u32_at_range c (u32_at c 24 + 28)) as Rt.
  pose proof (u16_at_range c (u32_at c 24 + 10)) as Rc.
  assert (HE : u32_at c 24 + 32 ≤ extent c
               ∧ (0 < u16_at c (u32_at c 24 + 10) →
                  u32_at c 24 + u32_at c (u32_at c 24 + 24)
                  + 8 * u16_at c (u32_at c 24 + 10) ≤ extent c)
               ∧ u32_at c 24 + u32_at c (u32_at c 24 + 28) + 16 ≤ extent c
               ∧ (0 < u32_at c (u32_at c 24 + u32_at c (u32_at c 24 + 28) + 8) →
                  u32_at c 24
                  + u32_at c (u32_at c 24 + u32_at c (u32_at c 24 + 28) + 12)
                  + 16 * u32_at c (u32_at c 24 + u32_at c (u32_at c 24 + 28) + 8)
                  ≤ extent c)).
  { unfold extent. cbv zeta.
    repeat match goal with
    | |- context [0 <? ?x] => destruct (Z.ltb_spec 0 x)
    end; lia. }
  destruct HE as (E1 & E2 & E3 & E4).
  set (b := u32_at c 24) in *.
  pose proof (le_uint_nonneg (bytes_at c 24 4)) as Hb. fold (u32_at c 24) in Hb. fold b in Hb.
  assert (Ec : u16_at c' (b + delta + 10) = u16_at c (b + 10)).
  { replace (b + delta + 10) with (b + 10 + delta) by lia. apply agree_u16; lia. }
  assert (Es : f32_at c' (b + delta + 12) = f32_at c (b + 12)).
  { replace (b + delta + 12) with (b + 12 + delta) by lia. apply agree_f32; lia. }
  assert (Ev : u32_at c' (b + delta + 24) = u32_at c (b + 24)).
  { replace (b + delta + 24) with (b + 24 + delta) by lia. apply agree_u32; lia. }
  assert (Et : u32_at c' (b + delta + 28) = u32_at c (b + 28)).
  { replace (b + delta + 28) with (b + 28 + delta) by lia. apply agree_u32; lia. }
  set (ti := u32_at c (b + 28)) in *.
  assert (En : u32_at c' (b + delta + ti + 8) = u32_at c (b + ti + 8)).
  { replace (b + delta + ti + 8) with (b + ti + 8 + delta) by lia. apply agree_u32; lia. }
  assert (Ep : u32_at c' (b + delta + ti + 12) = u32_at c (b + ti + 12)).
  { replace (b + delta + ti + 12) with (b + ti + 12 + delta) by lia. apply agree_u32; lia. }
  pose proof (decode_intro c') as HI. cbv zeta in HI.
  rewrite Hbase, Ec, Es, Ev, Et, En, Ep in HI. fold b ti in HI.
  pose proof (u32_at_range c (b + ti + 12)) as Rp.
  rewrite HI; [|lia|congruence|lia|lia|lia|lia].
  f_equal.
  - apply list_fmap_ext. intros k i Hk. apply lookup_seqZ in Hk as [-> Hk].
    replace (b + delta + u32_at c (b + 24) + (0 + Z.of_nat k) * 8)
      with (b + u32_at c (b + 24) + (0 + Z.of_nat k) * 8 + delta) by lia.
    apply agree_vertex; lia.
  - apply list_fmap_ext. intros k i Hk. apply lookup_seqZ in Hk as [-> Hk].
    replace (b + delta + u32_at c (b + ti + 12) + (0 + Z.of_nat k) * 16)
      with (b + u32_at c (b + ti + 12) + (0 + Z.of_nat k) * 16 + delta) by lia.
    apply agree_tri; lia.
Qed.
End transport.

Lemma decoded_extent content out vs ts :
  decode content = (out, Decoded vs ts) → 60 ≤ extent content ≤ buflen content.
Proof.
  intros H. apply decode_Decoded in H. cbv zeta in H.
  destruct H as (H0 & _ & H1 & H2 & H3 & H4 & _).
  unfold extent. cbv zeta.
  repeat match goal with
  | |- context [0 <? ?x] => destruct (Z.ltb_spec 0 x)
  end; lia.
Qed.

(** Only the bytes below the extent matter: a buffer that agrees with
    a decodable one on its first [extent] bytes decodes to the same
    vertices and triangles.  Bytes appended to the file, or changed
    beyond the last table, are never looked at, and the file cut down
    to its extent still decodes. *)
Theorem prefix_determines_mesh c c' out vs ts :
  parse_content c = (out, inr (Some vs, Some ts)) →
  take (Z.to_nat (extent c)) c' = take (Z.to_nat (extent c)) c →
  (parse_content c').2 = inr (Some vs, Some ts).
Proof.
  intros Hp Heq. apply parse_ok_decode in Hp.
  pose proof (decoded_extent _ _ _ _ Hp) as [HE0 HE1].
  assert (extent c ≤ buflen c') as Hlen'.
  { apply (f_equal length) in Heq. rewrite !length_take in Heq.
    unfold buflen in *. lia. }
  assert (∀ off n, u32_at c 24 ≤ off → off + Z.of_nat n ≤ extent c →
                   bytes_at c' (off + 0) n = bytes_at c off n) as Hagree.
  { intros off n Hoff Hn. rewrite Z.add_0_r.
    pose proof (le_uint_nonneg (bytes_at c 24 4)). fold (u32_at c 24) in *.
    apply (bytes_at_agree _ _ (Z.to_nat (extent c))); [done|lia|lia]. }
  rewrite parse_content_decode.
  rewrite (decode_transport c c' 0 Hagree out vs ts); [done|done|lia| | |lia].
  - replace 4%nat with (4 `min` Z.to_nat (extent c))%nat by lia.
    by rewrite <- !take_take, Heq.
  - rewrite Z.add_0_r. unfold u32_at. f_equal.
    apply (bytes_at_agree _ _ (Z.to_nat (extent c))); [done|lia|lia].
Qed.

Lemma prefix_determines_mesh_witness :
  extent sample1 = 148 ∧
  ∃ vs ts,
    parse_content sample1 = ((parse_content sample1).1, inr (Some vs, Some ts)) ∧
    (parse_content (sample1 ++ [xff; xff; xff])).2 = inr (Some vs, Some ts).
Proof.
  split; [reflexivity|].
  eexists _, _. split; [vm_compute; reflexivity|].
  apply (prefix_determines_mesh sample1 (sample1 ++ [xff; xff; xff]) _ _ _ eq_refl).
  vm_compute. reflexivity.
Defined.

Lemma u32_at_take c (n : nat) off :
  0 ≤ off → off + 4 ≤ Z.of_nat n → u32_at (take n c) off = u32_at c off.
Proof. intros. unfold u32_at. rewrite bytes_at_take by lia. done. Qed.

Lemma u16_at_take c (n : nat) off :
  0 ≤ off → off + 2 ≤ Z.of_nat n → u16_at (take n c) off = u16_at c off.
Proof. intros. unfold u16_at. rewrite bytes_at_take by lia. done. Qed.

(** Decoding is all or nothing under truncation: a decodable file cut
    to fewer bytes than its extent (one byte short of the end of the
    last triangle record, say) fails with [struct.error] and
    [parse_map_file] returns the pair of [None]s, wherever the cut
    falls. *)
Theorem truncated_file_fails c out vs ts (n : nat) file_path :
  parse_content c = (out, inr (Some vs, Some ts)) →
  Z.of_nat n < extent c →
  (parse_content (take n c)).2 = inl StructError ∧
  (parse_map_file (λ _, Contents (take n c)) file_path).2 = inr (None, None).
Proof.
  intros Hp Hn. apply parse_ok_decode in Hp.
  pose proof (decoded_extent _ _ _ _ Hp) as [HE0 HE1].
  pose proof (decode_Decoded _ _ _ _ Hp) as Hd. cbv zeta in Hd.
  destruct Hd as (H0 & Hm & H1 & H2 & H3 & H4 & _).
  assert ((decode (take n c)).2 = OutOfBounds) as Hoob.
  { assert (buflen (take n c) = Z.of_nat n) as Hlen
      by (unfold buflen in *; rewrite length_take; lia).
    unfold decode. cbv zeta. rewrite Hlen.
    destruct (Z.ltb_spec (Z.of_nat n) 60); [done|].
    rewrite take_take, Nat.min_l by lia.
    rewrite bool_decide_eq_true_2 by done. cbn [negb].
    rewrite (u32_at_take c n 24) by lia.
    pose proof (le_uint_nonneg (bytes_at c 24 4)) as Hb. fold (u32_at c 24) in Hb.
    set (b := u32_at c 24) in *.
    destruct (Z.ltb_spec (Z.of_nat n - b) 32); [done|].
    rewrite (u16_at_take c n (b + 10)), (u32_at_take c n (b + 24)),
      (u32_at_take c n (b + 28)) by lia.
    pose proof (u32_at_range c (b + 24)) as Rv.
    pose proof (u32_at_range c (b + 28)) as Rt.
    match goal with
    | |- context [if ?x && ?y then _ else _] => destruct (x && y) eqn:E2; [done|]
    end.
    set (ti := b + u32_at c (b + 28)) in *.
    destruct (Z.ltb_spec (Z.of_nat n - ti) 16); [done|].
    rewrite (u32_at_take c n (ti + 8)), (u32_at_take c n (ti + 12)) by lia.
    match goal with
    | |- context [if ?x && ?y then _ else _] => destruct (x && y) eqn:E4; [done|]
    end.
    exfalso. apply andb_false_iff in E2, E4. revert Hn. unfold extent. cbv zeta.
    fold b. fold ti.
    repeat match goal with
    | |- context [0 <? ?x] => destruct (Z.ltb_spec 0 x)
    end; lia. }
  split.
  - by rewrite parse_content_decode, Hoob.
  - by rewrite parse_map_file_result, Hoob.
Qed.

Lemma truncated_file_fails_witness :
  ∃ vs ts,
    parse_content sample1 = ((parse_content sample1).1, inr (Some vs, Some ts)) ∧
    (parse_content (take 100 sample1)).2 = inl StructError ∧
    (parse_map_file (λ _, Contents (take 100 sample1)) "map.vpa").2 = inr (None, None).
Proof.
  eexists _, _. split; [vm_compute; reflexivity|].
  apply (truncated_file_fails sample1 _ _ _ 100 "map.vpa" eq_refl).
  vm_compute. reflexivity.
Defined.

(** The descriptor and its tables can stand anywhere: if a second
    buffer has the tag, stores a base address [delta] away from the
    first one's, and holds from its base on the bytes the first holds
    from its own, the stored pointers being the same, then it decodes
    to the same vertices and triangles.  Every address the parser uses
    after the header is the base plus a stored pointer. *)
Theorem relocated_descriptor c c' delta out vs ts :
  parse_content c = (out, inr (Some vs, Some ts)) →
  60 ≤ buflen c' →
  take 4 c' = MAP1 →
  u32_at c' 24 = u32_at c 24 + delta →
  drop (Z.to_nat (u32_at c 24 + delta)) c' = drop (Z.to_nat (u32_at c 24)) c →
  (parse_content c').2 = inr (Some vs, Some ts).
Proof.
  intros Hp Hlen Hmagic Hbase Htail. apply parse_ok_decode in Hp.
  pose proof (decoded_extent _ _ _ _ Hp) as [HE0 HE1].
  pose proof (decode_Decoded _ _ _ _ Hp) as Hd. cbv zeta in Hd.
  destruct Hd as (_ & Hm & H1 & _).
  pose proof (le_uint_nonneg (bytes_at c 24 4)) as Hb. fold (u32_at c 24) in Hb.
  pose proof (le_uint_nonneg (bytes_at c' 24 4)) as Hb'. fold (u32_at c' 24) in Hb'.
  set (b := u32_at c 24) in *.
  assert (buflen c' = buflen c + delta) as Hlen'.
  { apply (f_equal length) in Htail. rewrite !length_drop in Htail.
    unfold buflen in *. lia. }
  assert (∀ off n, b ≤ off → off + Z.of_nat n ≤ extent c →
                   bytes_at c' (off + delta) n = bytes_at c off n) as Hagree.
  { intros off n Hoff Hn. unfold bytes_at.
    replace (Z.to_nat (off + delta)) with (Z.to_nat (b + delta) + Z.to_nat (off - b))%nat
      by lia.
    replace (Z.to_nat off) with (Z.to_nat b + Z.to_nat (off - b))%nat by lia.
    by rewrite <- !drop_drop, Htail. }
  rewrite parse_content_decode.
  rewrite (decode_transport c c' delta Hagree out vs ts); [done|done|done|congruence|done|lia].
Qed.

Lemma relocated_descriptor_witness :
  let moved := sample_header MAP1 64 ++ pad 4 ++ drop 60 sample1 in
  ∃ vs ts,
    parse_content sample1 = ((parse_content sample1).1, inr (Some vs, Some ts)) ∧
    (parse_content moved).2 = inr (Some vs, Some ts).
Proof.
  eexists _, _. split; [vm_compute; reflexivity|].
  apply (relocated_descriptor sample1 _ 4 _ _ _ eq_refl).
  - vm_compute. discriminate.
  - reflexivity.
  - reflexivity.
  - vm_compute. reflexivity.
Defined.

(** * Further properties: output, composition, edge cases *)

(** The parser written with tuples, dynamic types and exceptions does
    what the typed decoder [decode] does, on every buffer: same lines
    printed, and it returns the pair of [None]s on a wrong tag, raises
    [struct.error] on a read outside the buffer and returns the two
    lists otherwise. *)
Theorem parser_refines_decoder content :
  parse_content content =
    ((decode content).1,
     match (decode content).2 with
     | BadMagic _ => inr (None, None)
     | OutOfBounds => inl StructError
     | Decoded vertices tris => inr (Some vertices, Some tris)
     end).
Proof. rewrite parse_content_decode. by destruct (decode content).2. Qed.

(** What a successful parse prints: the base address, the vertex count
    with the scale, the two pointers, the number of vertices read, the
    triangle count and the number of triangles read, in this order; the
    two numbers read are the lengths of the returned lists and equal
    the counts stored in the file. *)
Theorem successful_parse_output content out vs ts :
  parse_content content = (out, inr (Some vs, Some ts)) →
  let base := u32_at content 24 in
  let vertex_count := u16_at content (base + 10) in
  let tri_info := base + u32_at content (base + 28) in
  let tri_count := u32_at content (tri_info + 8) in
  out = [Print (MsgNavMeshBase base);
         Print (MsgVertexCountScale vertex_count (f32_at content (base + 12)));
         Print (MsgPointers (u32_at content (base + 24)) (u32_at content (base + 28)));
         Print (MsgParsedVertices (length vs));
         Print (MsgTriangleCount tri_count);
         Print (MsgParsedTriangles (length ts))] ∧
  length vs = Z.to_nat vertex_count ∧ length ts = Z.to_nat tri_count.
Proof.
  intros H. apply parse_ok_decode in H.
  pose proof (decode_Decoded _ _ _ _ H) as Hd. cbv zeta in Hd.
  destruct Hd as (_ & _ & _ & _ & _ & _ & Hvs & Hts).
  cbv zeta. split; [|split].
  - revert H. unfold decode. cbv zeta.
    repeat match goal with
    | |- context [if ?c then _ else _] => destruct c; try discriminate
    end.
    intros [= <- <- <-]. reflexivity.
  - rewrite Hvs, length_fmap. apply length_seqZ.
  - rewrite Hts, length_fmap. apply length_seqZ.
Qed.

Lemma successful_parse_output_witness :
  ∃ vs ts,
    parse_content sample1 =
      ([Print (MsgNavMeshBase 60);
        Print (MsgVertexCountScale 3 (f32_to_float 0x3C23D70A));
        Print (MsgPointers 32 56);
        Print (MsgParsedVertices 3);
        Print (MsgTriangleCount 1);
        Print (MsgParsedTriangles 1)], inr (Some vs, Some ts)) ∧
    length vs = 3%nat ∧ length ts = 1%nat.
Proof.
  eexists _, _. split; [vm_compute; reflexivity|].
  destruct (successful_parse_output sample1 _ _ _ eq_refl) as (_ & Hv & Ht).
  split; [exact Hv|exact Ht].
Defined.

(** A file with both counts zero decodes to two empty lists whatever
    its vertex and triangle pointers are: a table of no records is
    never read. *)
Theorem empty_tables_decode content :
  let base := u32_at content 24 in
  let tri_info := base + u32_at content (base + 28) in
  60 ≤ buflen content → take 4 content = MAP1 →
  base + 32 ≤ buflen content →
  u16_at content (base + 10) = 0 →
  tri_info + 16 ≤ buflen content →
  u32_at content (tri_info + 8) = 0 →
  (parse_content content).2 = inr (Some [], Some []).
Proof.
  cbv zeta. intros H0 Hm H1 Hc H3 Ht.
  rewrite parse_content_decode, decode_intro; [|done|done|done|lia|done|lia].
  by rewrite Hc, Ht.
Qed.

Lemma empty_tables_decode_witness :
  (parse_content (sample_file 0 0x3C23D70A [])).2 = inr (Some [], Some []).
Proof.
  apply empty_tables_decode; vm_compute; (reflexivity || discriminate).
Defined.

(** The colour of a triangle depends on the low seven bits of its
    attribute word only: the battle, location and sound bits never
    change it. *)
Theorem triangle_colour_from_low_bits (v n : list Z) (d : Z) :
  get_passability_color (passable (Tri_init v n d)) = color_table (d mod 128).
Proof.
  destruct (bitfield_div_mod v n d) as (Hp & _). cbv zeta in Hp.
  by rewrite Hp, get_passability_color_table.
Qed.

(** A missing file and a file that cannot be opened end [main] in the
    same way, without an exception: after the loading line comes the
    line of the handler that caught the error, then the failure line. *)
Theorem main_on_unreadable_file fs file_path :
  file_path ≠ ""%string →
  (fs file_path = NoSuchFile →
   main fs file_path
     = ([Print (MsgLoading file_path); Print (MsgFileNotFound file_path);
         Print MsgFailedToParse], inr tt)) ∧
  (fs file_path = OpenFails →
   main fs file_path
     = ([Print (MsgLoading file_path); Print (MsgUnexpected OSError);
         Print MsgFailedToParse], inr tt)).
Proof.
  intros Hne. split; intros Hfs; rewrite main_unfold by done;
    unfold parse_map_file; by rewrite Hfs.
Qed.

Lemma main_on_unreadable_file_witness :
  main (λ _, NoSuchFile) "map.vpa"
    = ([Print (MsgLoading "map.vpa"); Print (MsgFileNotFound "map.vpa");
        Print MsgFailedToParse], inr tt) ∧
  main (λ _, OpenFails) "map.vpa"
    = ([Print (MsgLoading "map.vpa"); Print (MsgUnexpected OSError);
        Print MsgFailedToParse], inr tt).
Proof.
  split.
  - apply (main_on_unreadable_file (λ _, NoSuchFile) "map.vpa"); [discriminate|reflexivity].
  - apply (main_on_unreadable_file (λ _, OpenFails) "map.vpa"); [discriminate|reflexivity].
Defined.


